(** * The WebSocket gateway of [server/index.js]

    A shallow embedding of the Node.js coordination server: the
    [wss.on('connection')] callback, the two listeners it installs on every
    socket ([message] and [close]) and the [.then]/[.catch] callbacks chained
    on the two [axios.post] calls.

    Node runs every callback to completion on one thread, so the server is a
    state machine whose transitions are the callbacks.  The environment (the
    [ws] library, [axios], the clock and [Math.random]) chooses which
    callback runs next and with which argument; it is the [event] type
    below.  Console output is not modelled: no client can observe it. *)

From Stdlib Require Import Ascii String NArith.
From stdpp Require Import base option list strings gmap pretty.

Set Warnings "-register-all".
Local Open Scope string_scope.

(** ** JavaScript values that JSON can carry *)

Module JS.

(** A value as [JSON.parse] builds it.  A number is kept as the text that
    JavaScript prints for it ([Number::toString]), which leaves floating
    point out of the model.  The fields of an object come in the order in
    which JavaScript enumerates its own properties. *)
Inductive json : Type :=
  | JNull
  | JBool (b : bool)
  | JNum (text : string)
  | JStr (s : string)
  | JArr (items : list json)
  | JObj (fields : list (string * json)).

(** [undefined] is not a JSON value: a JavaScript expression that may be
    [undefined] has type [option json], with [None] for [undefined]. *)
Definition value : Type := option json.

(** What a statement does: it completes normally or it throws. *)
Inductive completion (A : Type) : Type :=
  | Normal (a : A)
  | Throw (message : string).
Arguments Normal {A} a.
Arguments Throw {A} message.

#[export] Instance completion_ret : MRet completion := @Normal.

#[export] Instance completion_bind : MBind completion := fun A B k c =>
  match c with
  | Normal a => k a
  | Throw m => Throw m
  end.

(** [try { c } catch (e) { h(e.message) }] *)
Definition try_catch {A} (c : completion A) (h : string → completion A) : completion A :=
  match c with
  | Normal a => Normal a
  | Throw m => h m
  end.

(** [o[key]] on an object built by [JSON.parse]: the own property, else
    [undefined] (neither [type], [image] nor [query] is inherited from
    [Object.prototype]). *)
Fixpoint own_property (fields : list (string * json)) (key : string) : value :=
  match fields with
  | [] => None
  | (k, v) :: rest => if String.eqb k key then Some v else own_property rest key
  end.

(** [data.key]: reading a property of [null] throws a [TypeError]; booleans,
    numbers, strings and arrays have no property of the names used here. *)
Definition get (data : json) (key : string) : completion value :=
  match data with
  | JNull => Throw ("Cannot read properties of null (reading '" ++ key ++ "')")
  | JObj fields => Normal (own_property fields key)
  | _ => Normal None
  end.

(** [v === 'literal'] *)
Definition strict_eq_string (v : value) (literal : string) : bool :=
  match v with
  | Some (JStr s) => String.eqb s literal
  | _ => false
  end.

(** Whether converting [v] to a string (as a template literal does) throws.
    An object built by [JSON.parse] inherits [Object.prototype.toString]
    unless it has an own property of that name, which is then a value that
    cannot be called; [valueOf] never yields a primitive for it, so the
    conversion throws a [TypeError].  An array joins the conversions of its
    elements, with [null] printed as the empty string. *)
Fixpoint to_string_throws (v : json) : bool :=
  match v with
  | JObj fields => existsb (fun kv => String.eqb (fst kv) "toString") fields
  | JArr items => existsb to_string_throws items
  | _ => false
  end.

(** [`${v}`], for its effect only. *)
Definition template (v : value) : completion unit :=
  match v with
  | None => Normal ()
  | Some j =>
      if to_string_throws j
      then Throw "Cannot convert object to primitive value"
      else Normal ()
  end.

(** *** [JSON.stringify] *)

Definition hex_digit (n : N) : ascii :=
  ascii_of_N (if (n <? 10)%N then 48 + n else 87 + n).

(** One character of a string literal, as [QuoteJSONString] writes it. *)
Definition quote_char (c : ascii) : string :=
  let n := N_of_ascii c in
  if (n =? 34)%N then String "\" (String c "")
  else if (n =? 92)%N then "\\"
  else if (n =? 8)%N then "\b"
  else if (n =? 9)%N then "\t"
  else if (n =? 10)%N then "\n"
  else if (n =? 12)%N then "\f"
  else if (n =? 13)%N then "\r"
  else if (n <? 32)%N then
    "\u00" ++ String (hex_digit (n / 16)) (String (hex_digit (n mod 16)) "")
  else String c "".

Fixpoint quote_chars (s : string) : string :=
  match s with
  | EmptyString => ""
  | String c rest => quote_char c ++ quote_chars rest
  end.

Definition dquote : string := String (ascii_of_N 34) "".

Definition quote (s : string) : string := dquote ++ quote_chars s ++ dquote.

(** [NaN] and the infinities are printed as [null]. *)
Definition number_text (text : string) : string :=
  if String.eqb text "NaN" || String.eqb text "Infinity" || String.eqb text "-Infinity"
  then "null" else text.

Fixpoint JSON_stringify (v : json) : string :=
  match v with
  | JNull => "null"
  | JBool true => "true"
  | JBool false => "false"
  | JNum text => number_text text
  | JStr s => quote s
  | JArr items =>
      "[" ++ (fix elements (l : list json) : string :=
                match l with
                | [] => ""
                | x :: rest =>
                    JSON_stringify x ++
                    match rest with [] => "" | _ => "," ++ elements rest end
                end) items ++ "]"
  | JObj fields =>
      "{" ++ (fix members (l : list (string * json)) : string :=
                match l with
                | [] => ""
                | (k, x) :: rest =>
                    quote k ++ ":" ++ JSON_stringify x ++
                    match rest with [] => "" | _ => "," ++ members rest end
                end) fields ++ "}"
  end.

(** An object literal [{ k1: v1, ... }] whose values may be [undefined]:
    [JSON.stringify] leaves the [undefined] ones out. *)
Definition literal (fields : list (string * value)) : json :=
  JObj (omap (fun kv => match snd kv with
                        | Some v => Some (fst kv, v)
                        | None => None
                        end) fields).

End JS.
Export JS.

(** Wire text written with an apostrophe for every double quote, for
    readable examples. *)
Fixpoint wire (s : string) : string :=
  match s with
  | EmptyString => ""
  | String c rest => String (if Ascii.eqb c "'" then ascii_of_N 34 else c) (wire rest)
  end.


(** ** The gateway *)

Module Gateway.

(** [ws.readyState], with the numbers the [ws] library gives the states. *)
Inductive ReadyState : Type := CONNECTING | OPEN | CLOSING | CLOSED.

#[export] Instance ReadyState_eq_dec : EqDecision ReadyState.
Proof. solve_decision. Defined.

Definition readyState_code (r : ReadyState) : N :=
  match r with
  | CONNECTING => 0
  | OPEN => 1
  | CLOSING => 2
  | CLOSED => 3
  end.

(** A socket [ws] handed to the [connection] callback, together with the
    constant [id] of the closure that the callback builds around it.
    [sent] lists the arguments of the calls of [ws.send], oldest first. *)
Record WebSocket : Type := {
  id : string;
  readyState : ReadyState;
  sent : list string;
}.

(** The two services called with [axios.post]. *)
Inductive service : Type := Recognize | Query.

#[export] Instance service_eq_dec : EqDecision service.
Proof. solve_decision. Defined.

(** The arguments of one [axios.post(url, body, { timeout })]. *)
Record request : Type := {
  url : string;
  body : list (string * value);
  timeout : N;
}.

(** The promise of one [axios.post] with the [.then] and [.catch] callbacks
    chained on it; the callbacks close over [ws], and differ between the
    two services in the [type] they answer with. *)
Record call : Type := {
  ws : nat;
  to : service;
  req : request;
  settled : bool;
}.

(** The server: the [clients] Map, the sockets accepted so far (a socket is
    named by its position) and the calls made so far (likewise). *)
Record state : Type := {
  clients : gmap string nat;
  sockets : list WebSocket;
  calls : list call;
}.

Definition initial : state :=
  {| clients := ∅; sockets := []; calls := [] |}.

(** An inbound message.  [JSON.parse] itself is not translated: a message
    is given by what [JSON.parse] makes of it, a [SyntaxError] or a value. *)
Inductive message : Type :=
  | NotJSON (text : string)
  | JSONText (data : json).

Definition JSON_parse (msg : message) : completion json :=
  match msg with
  | NotJSON _ => Throw "Unexpected token in JSON"
  | JSONText data => Normal data
  end.

(** How the promise of an [axios.post] settles: with [resp] (of which the
    callbacks read [resp.data]) or with [err] (of which they read
    [err.message]).  [axios] decodes the body of a response as text and
    parses it as JSON when it can, so [resp.data] is a JSON value or a
    string, never [undefined]; [err.message] is a string. *)
Inductive outcome : Type :=
  | Resolved (data : json)
  | Rejected (err_message : string).

(** The message of the error with which [axios] rejects a call whose
    [timeout] option ran out. *)
Definition axios_timeout_message (ms : N) : string :=
  "timeout of " ++ pretty ms ++ "ms exceeded".

(** What the environment does next. *)
Inductive event : Type :=
  | Connection (now : N) (random36 : string)
      (* a client connects; [Date.now()] and [Math.random().toString(36)] *)
  | Message (w : nat) (msg : message)   (* [message] on socket [w] *)
  | PeerClosing (w : nat)               (* a close frame arrived on [w] *)
  | Close (w : nat)                     (* [close] on socket [w] *)
  | Settle (c : nat) (o : outcome)      (* the promise of call [c] settles *)
  | Deadline (c : nat).                 (* the [timeout] of call [c] ran out *)

(** [s.slice(n)] for [0 <= n]. *)
Fixpoint slice (n : nat) (s : string) : string :=
  match n, s with
  | O, _ => s
  | S n', String _ rest => slice n' rest
  | S _, EmptyString => ""
  end.

(** [Date.now() + Math.random().toString(36).slice(2)]: a number plus a
    string is the decimal text of the number followed by the string. *)
Definition new_id (now : N) (random36 : string) : string :=
  pretty now ++ slice 2 random36.

(** The [connection] callback.  Sockets reach it open. *)
Definition on_connection (now : N) (random36 : string) (s : state)
  : completion state :=
  let id := new_id now random36 in
  let w := length (sockets s) in
  Normal {| clients := <[id := w]> (clients s);
            sockets := sockets s ++ [{| id := id; readyState := OPEN; sent := [] |}];
            calls := calls s |}.

(** [axios.post(...)] returns a pending promise at once. *)
Definition axios_post (w : nat) (svc : service) (r : request) (s : state) : state :=
  {| clients := clients s;
     sockets := sockets s;
     calls := calls s ++ [{| ws := w; to := svc; req := r; settled := false |}] |}.

(** The body of [try] in the [message] listener of socket [w]. *)
Definition message_try (w : nat) (msg : message) (s : state) : completion state :=
  data ← JSON_parse msg;
  type ← get data "type";
  if strict_eq_string type "frame" then
    image ← get data "image";
    Normal (axios_post w Recognize
              {| url := "http://localhost:8001/recognize";
                 body := [("image", image)];
                 timeout := 10000 |} s)
  else if strict_eq_string type "chat" then
    query ← get data "query";
    _ ← template query;
    Normal (axios_post w Query
              {| url := "http://localhost:8002/query";
                 body := [("query", query)];
                 timeout := 30000 |} s)
  else Normal s.

(** The [message] listener: the [catch] clause only logs. *)
Definition on_message (w : nat) (msg : message) (s : state) : completion state :=
  try_catch (message_try w msg s) (fun _ => Normal s).

(** [ws.send(text)]: the library throws on a socket that is still
    connecting, and takes the text otherwise. *)
Definition ws_send (w : nat) (text : string) (l : list WebSocket)
  : completion (list WebSocket) :=
  match l !! w with
  | None => Normal l
  | Some sock =>
      match readyState sock with
      | CONNECTING => Throw "WebSocket is not open: readyState 0 (CONNECTING)"
      | r => Normal (<[w := {| id := id sock; readyState := r;
                               sent := sent sock ++ [text] |}]> l)
      end
  end.

(** [ws.readyState === 1] *)
Definition is_open (w : nat) (l : list WebSocket) : bool :=
  match l !! w with
  | Some sock => (readyState_code (readyState sock) =? 1)%N
  | None => false
  end.

(** The [type] of the answers to a call. *)
Definition answer_type (svc : service) : string :=
  match svc with
  | Recognize => "recognition"
  | Query => "chat_response"
  end.

(** [{ type: ..., payload: resp.data }] and [{ type: ..., error: err.message }] *)
Definition success (svc : service) (data : json) : json :=
  literal [("type", Some (JStr (answer_type svc))); ("payload", Some data)].

Definition failure (svc : service) (err_message : string) : json :=
  literal [("type", Some (JStr (answer_type svc))); ("error", Some (JStr err_message))].

(** The [.then] callback. *)
Definition on_fulfilled (w : nat) (svc : service) (data : json) (l : list WebSocket)
  : completion (list WebSocket) :=
  if is_open w l then ws_send w (JSON_stringify (success svc data)) l
  else Normal l.

(** The [.catch] callback. *)
Definition on_rejected (w : nat) (svc : service) (err_message : string)
  (l : list WebSocket) : completion (list WebSocket) :=
  if is_open w l then ws_send w (JSON_stringify (failure svc err_message)) l
  else Normal l.

(** [promise.then(on_fulfilled).catch(on_rejected)]: the [.catch] callback
    also receives what the [.then] callback throws; what the [.catch]
    callback throws is handled by nobody. *)
Definition then_catch (w : nat) (svc : service) (o : outcome) (l : list WebSocket)
  : completion (list WebSocket) :=
  match o with
  | Resolved data => try_catch (on_fulfilled w svc data l) (fun m => on_rejected w svc m l)
  | Rejected m => on_rejected w svc m l
  end.

(** The promise of call [c] settles; a promise settles once. *)
Definition on_settle (c : nat) (o : outcome) (s : state) : completion state :=
  match calls s !! c with
  | None => Normal s
  | Some k =>
      if settled k then Normal s
      else
        l ← then_catch (ws k) (to k) o (sockets s);
        Normal {| clients := clients s;
                  sockets := l;
                  calls := <[c := {| ws := ws k; to := to k; req := req k;
                                     settled := true |}]> (calls s) |}
  end.

(** The [timeout] of call [c] runs out: [axios] rejects its promise. *)
Definition on_deadline (c : nat) (s : state) : completion state :=
  match calls s !! c with
  | None => Normal s
  | Some k => on_settle c (Rejected (axios_timeout_message (timeout (req k)))) s
  end.

(** The library moves a socket to [CLOSING] when the peer's close frame
    arrives; this runs no callback of the server. *)
Definition peer_closing (w : nat) (s : state) : completion state :=
  match sockets s !! w with
  | None => Normal s
  | Some sock =>
      Normal {| clients := clients s;
                sockets := <[w := {| id := id sock;
                                     readyState := match readyState sock with
                                                   | CLOSED => CLOSED
                                                   | _ => CLOSING
                                                   end;
                                     sent := sent sock |}]> (sockets s);
                calls := calls s |}
  end.

(** The library closes the socket, then runs the [close] listener, which
    does [clients.delete(id)]. *)
Definition on_close (w : nat) (s : state) : completion state :=
  match sockets s !! w with
  | None => Normal s
  | Some sock =>
      Normal {| clients := delete (id sock) (clients s);
                sockets := <[w := {| id := id sock; readyState := CLOSED;
                                     sent := sent sock |}]> (sockets s);
                calls := calls s |}
  end.

(** One turn of the event loop.  [Throw] is an exception that no handler
    caught: the process dies. *)
Definition step (s : state) (e : event) : completion state :=
  match e with
  | Connection now random36 => on_connection now random36 s
  | Message w msg =>
      match sockets s !! w with
      | None => Normal s
      | Some _ => on_message w msg s
      end
  | PeerClosing w => peer_closing w s
  | Close w => on_close w s
  | Settle c o => on_settle c o s
  | Deadline c => on_deadline c s
  end.

Fixpoint run (s : state) (trace : list event) : completion state :=
  match trace with
  | [] => Normal s
  | e :: rest => s' ← step s e; run s' rest
  end.

(** What socket [w] was asked to send, in order. *)
Definition outbox (s : state) (w : nat) : list string :=
  match sockets s !! w with
  | Some sock => sent sock
  | None => []
  end.

(** The calls of socket [w] that are still pending, oldest first. *)
Definition in_flight (s : state) (w : nat) (svc : service) : list call :=
  filter (fun k => ws k = w ∧ to k = svc ∧ settled k = false) (calls s).

(** *** Derived notions, used to state what the callbacks do *)

(** The text a settled call is answered with. *)
Definition answer (svc : service) (o : outcome) : string :=
  JSON_stringify match o with
                 | Resolved data => success svc data
                 | Rejected m => failure svc m
                 end.

Definition push (text : string) (sock : WebSocket) : WebSocket :=
  {| id := id sock; readyState := readyState sock; sent := sent sock ++ [text] |}.

(** [if (ws.readyState === 1) ws.send(text)] as one update of the sockets. *)
Definition deliver (w : nat) (text : string) (l : list WebSocket) : list WebSocket :=
  match l !! w with
  | Some sock => if decide (readyState sock = OPEN) then <[w := push text sock]> l else l
  | None => l
  end.

Definition settle (k : call) : call :=
  {| ws := ws k; to := to k; req := req k; settled := true |}.

(** The [type] that sends a message to a service, the field of the message
    that the service is given, and the call made for a message with the
    fields [fields]. *)
Definition inbound_type (svc : service) : string :=
  match svc with
  | Recognize => "frame"
  | Query => "chat"
  end.

Definition forwarded_field (svc : service) : string :=
  match svc with
  | Recognize => "image"
  | Query => "query"
  end.

Definition request_for (svc : service) (fields : list (string * json)) : request :=
  match svc with
  | Recognize =>
      {| url := "http://localhost:8001/recognize";
         body := [("image", own_property fields "image")];
         timeout := 10000 |}
  | Query =>
      {| url := "http://localhost:8002/query";
         body := [("query", own_property fields "query")];
         timeout := 30000 |}
  end.

(** The messages for which the listener reaches an [axios.post]: an object
    whose [type] is that of a service (and, for [chat], whose [query] can be
    logged). *)
Definition accepted (svc : service) (fields : list (string * json)) (msg : message)
  : Prop :=
  msg = JSONText (JObj fields) ∧
  own_property fields "type" = Some (JStr (inbound_type svc)) ∧
  (svc = Query → template (own_property fields "query") = Normal ()).

(** The messages that reach no branch of the listener: text that is not
    JSON, and values without a [type] that is ['frame'] or ['chat']. *)
Definition unrecognised (msg : message) : Prop :=
  match msg with
  | NotJSON _ => True
  | JSONText (JObj fields) =>
      own_property fields "type" ≠ Some (JStr "frame") ∧
      own_property fields "type" ≠ Some (JStr "chat")
  | JSONText _ => True
  end.

(** The [timeout] option of the calls to a service, in milliseconds. *)
Definition deadline (svc : service) : N :=
  match svc with
  | Recognize => 10000
  | Query => 30000
  end.

(** The texts that answer some call. *)
Definition is_answer (text : string) : Prop :=
  ∃ svc o, text = answer svc o.

(** Everything a socket was asked to send answers some call. *)
Definition only_answers (s : state) : Prop :=
  ∀ w sock, sockets s !! w = Some sock → Forall is_answer (sent sock).

End Gateway.
Export Gateway.

(** ** Inputs of the examples *)

Module Scenario.

Definition frame_A : message :=
  JSONText (JObj [("type", JStr "frame"); ("image", JStr "data:image/jpeg;base64,AAA")]).

Definition frame_B : message :=
  JSONText (JObj [("type", JStr "frame"); ("image", JStr "data:image/jpeg;base64,BBB")]).

Definition one_client : list event := [Connection 1700000000000 "0.4fzyo82mvyr"].

(** The server after [one_client] sent [frame_A]. *)
Definition one_frame_pending : state :=
  {| clients := {["17000000000004fzyo82mvyr" := 0]};
     sockets := [{| id := "17000000000004fzyo82mvyr"; readyState := OPEN; sent := [] |}];
     calls := [{| ws := 0; to := Recognize;
                  req := {| url := "http://localhost:8001/recognize";
                            body := [("image", Some (JStr "data:image/jpeg;base64,AAA"))];
                            timeout := 10000 |};
                  settled := false |}] |}.

(** A [frame] without [image], a [frame] and a [chat] with empty content. *)
Definition frame_without_image : message :=
  JSONText (JObj [("type", JStr "frame")]).

Definition frame_empty : message :=
  JSONText (JObj [("type", JStr "frame"); ("image", JStr "")]).

Definition chat_empty : message :=
  JSONText (JObj [("type", JStr "chat"); ("query", JStr "")]).

(** A message without [type]. *)
Definition no_type : message :=
  JSONText (JObj [("image", JStr "data:image/jpeg;base64,AAA")]).

(** The server after [one_client] connected. *)
Definition one_client_connected : state :=
  {| clients := {["17000000000004fzyo82mvyr" := 0]};
     sockets := [{| id := "17000000000004fzyo82mvyr"; readyState := OPEN; sent := [] |}];
     calls := [] |}.

(** Bodies of the recognition service, and a question. *)
Definition alice : json := JObj [("matches", JArr [JObj [("name", JStr "Alice")]])].

Definition bob : json := JObj [("matches", JArr [JObj [("name", JStr "Bob")]])].

Definition who_registered_last : message :=
  JSONText (JObj [("type", JStr "chat"); ("query", JStr "Who registered last?")]).

(** The server after [one_client] sent [who_registered_last]. *)
Definition one_chat_pending : state :=
  {| clients := {["17000000000004fzyo82mvyr" := 0]};
     sockets := [{| id := "17000000000004fzyo82mvyr"; readyState := OPEN; sent := [] |}];
     calls := [{| ws := 0; to := Query;
                  req := {| url := "http://localhost:8002/query";
                            body := [("query", Some (JStr "Who registered last?"))];
                            timeout := 30000 |};
                  settled := false |}] |}.

(** The server after [one_client] sent [frame_A], then [frame_B]. *)
Definition two_frames_pending : state :=
  {| clients := {["17000000000004fzyo82mvyr" := 0]};
     sockets := [{| id := "17000000000004fzyo82mvyr"; readyState := OPEN; sent := [] |}];
     calls := [{| ws := 0; to := Recognize;
                  req := {| url := "http://localhost:8001/recognize";
                            body := [("image", Some (JStr "data:image/jpeg;base64,AAA"))];
                            timeout := 10000 |};
                  settled := false |};
               {| ws := 0; to := Recognize;
                  req := {| url := "http://localhost:8001/recognize";
                            body := [("image", Some (JStr "data:image/jpeg;base64,BBB"))];
                            timeout := 10000 |};
                  settled := false |}] |}.

(** [one_frame_pending] with an empty registry. *)
Definition one_frame_pending_unregistered : state :=
  {| clients := ∅;
     sockets := sockets one_frame_pending;
     calls := calls one_frame_pending |}.

End Scenario.
Export Scenario.

(** ** More of JavaScript, for the code of the browser *)

Module Conversions.

(** [v ? ... : ...], [!v], [v || ...]: [undefined], [null], [false], the
    numbers [0] and [NaN] and the empty string are falsy; objects and
    arrays are truthy. *)
Definition truthy (v : json) : bool :=
  match v with
  | JNull => false
  | JBool b => b
  | JNum text => negb (String.eqb text "0" || String.eqb text "NaN")
  | JStr s => negb (String.eqb s "")
  | JArr _ | JObj _ => true
  end.

(** [`${v}`]: the string a template literal makes of a value.  An array is
    the texts of its elements joined with commas, [null] counting as the
    empty string; an object is ["[object Object]"], unless it has a field
    [toString] (see [to_string_throws]).  The message of the [TypeError]
    is the one V8 gives. *)
Fixpoint to_string (v : json) : completion string :=
  match v with
  | JNull => Normal "null"
  | JBool true => Normal "true"
  | JBool false => Normal "false"
  | JNum text => Normal text
  | JStr s => Normal s
  | JArr items =>
      (fix join (l : list json) : completion string :=
         match l with
         | [] => Normal ""
         | x :: rest =>
             head ← match x with JNull => Normal "" | _ => to_string x end;
             match rest with
             | [] => Normal head
             | _ => tail ← join rest; Normal (head ++ "," ++ tail)
             end
         end) items
  | JObj fields =>
      if existsb (fun kv => String.eqb (fst kv) "toString") fields
      then Throw "Cannot convert object to primitive value"
      else Normal "[object Object]"
  end.

Definition to_text (v : value) : completion string :=
  match v with
  | None => Normal "undefined"
  | Some j => to_string j
  end.

(** [`${JSON.stringify(v)}`]: [JSON.stringify(undefined)] is [undefined]. *)
Definition stringify_text (v : value) : string :=
  match v with
  | None => "undefined"
  | Some j => JSON_stringify j
  end.

End Conversions.
Export Conversions.

(** ** JSON text on the way in: [JSON.parse] *)

Module Wire.

(** What reading a text comes to: a value, a [SyntaxError], or a text the
    model does not cover (a number that needs floating point to print, an
    escaped lone surrogate); in the last case the model says nothing. *)
Inductive reading (A : Type) : Type :=
  | Read (a : A)
  | Malformed
  | Beyond.
Arguments Read {A} a.
Arguments Malformed {A}.
Arguments Beyond {A}.

#[export] Instance reading_ret : MRet reading := @Read.

#[export] Instance reading_bind : MBind reading := fun A B k r =>
  match r with
  | Read a => k a
  | Malformed => Malformed
  | Beyond => Beyond
  end.

Definition code (c : ascii) : N := N_of_ascii c.

(** JSON white space: space, tab, line feed, carriage return. *)
Definition is_space (c : ascii) : bool :=
  (code c =? 32)%N || (code c =? 9)%N || (code c =? 10)%N || (code c =? 13)%N.

Fixpoint skip_ws (s : string) : string :=
  match s with
  | String c rest => if is_space c then skip_ws rest else s
  | EmptyString => ""
  end.

Definition is_digit (c : ascii) : bool :=
  (48 <=? code c)%N && (code c <=? 57)%N.

(** The characters a number is written with: digits, [+ - . e E]. *)
Definition number_char (c : ascii) : bool :=
  is_digit c || (code c =? 43)%N || (code c =? 45)%N || (code c =? 46)%N
  || (code c =? 101)%N || (code c =? 69)%N.

(** The longest prefix of characters that satisfy [p], and the rest. *)
Fixpoint span (p : ascii → bool) (s : string) : string * string :=
  match s with
  | String c rest =>
      if p c then (String c (span p rest).1, (span p rest).2) else ("", s)
  | EmptyString => ("", "")
  end.

(** *** Numbers *)

Fixpoint digits_value (s : string) (acc : N) : N :=
  match s with
  | String c rest => digits_value rest (10 * acc + (code c - 48))
  | EmptyString => acc
  end.

Fixpoint strip_zeros (s : string) : string :=
  match s with
  | String c rest => if (code c =? 48)%N then strip_zeros rest else s
  | EmptyString => ""
  end.

Fixpoint zeros (n : nat) : string :=
  match n with
  | O => ""
  | S n' => String "0" (zeros n')
  end.

(** The parts of a number as JSON writes it: an optional minus sign; a
    zero, or digits that do not start with a zero; optionally a point and
    one digit or more; optionally [e] or [E], an optional sign and one digit
    or more.  [scan_number] gives the sign, the digits before and after the
    point, and the exponent. *)
Definition scan_exponent (s : string) : option Z :=
  match s with
  | EmptyString => Some 0%Z
  | String e rest =>
      if (code e =? 101)%N || (code e =? 69)%N then
        let '(minus, ds) :=
          match rest with
          | String sign rest' =>
              if (code sign =? 45)%N then (true, rest')
              else if (code sign =? 43)%N then (false, rest')
              else (false, rest)
          | EmptyString => (false, rest)
          end in
        let '(exp, after) := span is_digit ds in
        match exp, after with
        | String _ _, EmptyString =>
            let v := Z.of_N (digits_value exp 0) in
            Some (if minus then (- v)%Z else v)
        | _, _ => None
        end
      else None
  end.

Definition scan_number (t : string) : option (bool * string * string * Z) :=
  let '(negative, s1) :=
    match t with
    | String c rest => if (code c =? 45)%N then (true, rest) else (false, t)
    | EmptyString => (false, t)
    end in
  let '(whole, s2) := span is_digit s1 in
  let whole_ok :=
    match whole with
    | EmptyString => false
    | String c EmptyString => true
    | String c _ => negb (code c =? 48)%N
    end in
  if whole_ok then
    let '(fraction, s3) :=
      match s2 with
      | String c rest =>
          if (code c =? 46)%N then (Some (span is_digit rest).1, (span is_digit rest).2)
          else (Some "", s2)
      | EmptyString => (Some "", s2)
      end in
    match fraction, s2 with
    | Some "", String c _ =>
        if (code c =? 46)%N then None
        else exp ← scan_exponent s3; Some (negative, whole, "", exp)
    | Some f, _ => exp ← scan_exponent s3; Some (negative, whole, f, exp)
    | None, _ => None
    end
  else None.

(** [Number::toString] of the number that the digits [ds] (without zeros
    at either end, [k] of them) stand for when the point comes after the
    first [n] of them. *)
Definition render_number (ds : string) (n : Z) : string :=
  let k := Z.of_nat (String.length ds) in
  if ((k <=? n) && (n <=? 21))%Z then ds ++ zeros (Z.to_nat (n - k))
  else if ((0 <? n) && (n <=? 21))%Z then
    substring 0 (Z.to_nat n) ds ++ "." ++
    substring (Z.to_nat n) (String.length ds - Z.to_nat n) ds
  else if ((-6 <? n) && (n <=? 0))%Z then "0." ++ zeros (Z.to_nat (- n)) ++ ds
  else
    let e := (n - 1)%Z in
    match ds with
    | String d EmptyString => ds
    | String d more => String d ("." ++ more)
    | EmptyString => ""
    end ++ "e" ++ (if (0 <=? e)%Z then "+" else "-") ++ pretty (Z.to_N (Z.abs e)).

(** The text JavaScript prints for the number written [t].  A number with
    at most fifteen significant digits, well inside the range of a double,
    is printed with exactly those digits; the others need floating point
    and are left to [Beyond]. *)
Definition js_number (t : string) : reading string :=
  match scan_number t with
  | None => Malformed
  | Some (negative, whole, fraction, exp) =>
      let ds := strip_zeros (whole ++ fraction) in
      match ds with
      | EmptyString => Read "0"
      | _ =>
          let significant := String.rev (strip_zeros (String.rev ds)) in
          let n := (Z.of_nat (String.length ds) + exp - Z.of_nat (String.length fraction))%Z in
          if (15 <? String.length significant)%nat || (n <? -306)%Z || (308 <? n)%Z
          then Beyond
          else Read ((if negative then "-" else "") ++ render_number significant n)
      end
  end.

(** *** Strings *)

Definition hex_value (c : ascii) : option N :=
  let n := code c in
  if (48 <=? n)%N && (n <=? 57)%N then Some (n - 48)%N
  else if (97 <=? n)%N && (n <=? 102)%N then Some (n - 87)%N
  else if (65 <=? n)%N && (n <=? 70)%N then Some (n - 55)%N
  else None.

Definition hex4 (a b c d : ascii) : option N :=
  x ← hex_value a; y ← hex_value b; z ← hex_value c; w ← hex_value d;
  Some (4096 * x + 256 * y + 16 * z + w)%N.

(** A string of the model is the UTF-8 text of the JavaScript string. *)
Definition utf8 (cp : N) : string :=
  if (cp <? 128)%N then String (ascii_of_N cp) ""
  else if (cp <? 2048)%N then
    String (ascii_of_N (192 + cp / 64)) (String (ascii_of_N (128 + cp mod 64)) "")
  else if (cp <? 65536)%N then
    String (ascii_of_N (224 + cp / 4096))
      (String (ascii_of_N (128 + (cp / 64) mod 64))
         (String (ascii_of_N (128 + cp mod 64)) ""))
  else
    String (ascii_of_N (240 + cp / 262144))
      (String (ascii_of_N (128 + (cp / 4096) mod 64))
         (String (ascii_of_N (128 + (cp / 64) mod 64))
            (String (ascii_of_N (128 + cp mod 64)) ""))).

(** The character a one-letter escape stands for. *)
Definition simple_escape (c : ascii) : option ascii :=
  let n := code c in
  if (n =? 34)%N || (n =? 92)%N || (n =? 47)%N then Some c
  else if (n =? 98)%N then Some (ascii_of_N 8)
  else if (n =? 102)%N then Some (ascii_of_N 12)
  else if (n =? 110)%N then Some (ascii_of_N 10)
  else if (n =? 114)%N then Some (ascii_of_N 13)
  else if (n =? 116)%N then Some (ascii_of_N 9)
  else None.

Definition prepend (p : string) (r : reading (string * string)) : reading (string * string) :=
  '(s, rest) ← r; Read (p ++ s, rest).

(** The low half of a surrogate pair written [\uXXXX] at the head of [s]. *)
Definition low_surrogate (s : string) : option (N * string) :=
  match s with
  | String b (String u (String a1 (String a2 (String a3 (String a4 rest))))) =>
      if (code b =? 92)%N && (code u =? 117)%N then
        lo ← hex4 a1 a2 a3 a4;
        if (56320 <=? lo)%N && (lo <=? 57343)%N then Some (lo, rest) else None
      else None
  | _ => None
  end.

(** The characters of a string after its opening quote, up to the closing
    quote, and what follows. *)
Fixpoint read_chars (s : string) : reading (string * string) :=
  match s with
  | EmptyString => Malformed
  | String c rest =>
      if (code c =? 34)%N then Read ("", rest)
      else if (code c <? 32)%N then Malformed
      else if (code c =? 92)%N then
        match rest with
        | EmptyString => Malformed
        | String e rest1 =>
            if (code e =? 117)%N then
              match rest1 with
              | String a1 (String a2 (String a3 (String a4 rest2))) =>
                  match hex4 a1 a2 a3 a4 with
                  | None => Malformed
                  | Some u =>
                      if (u <? 55296)%N || (57343 <? u)%N then
                        prepend (utf8 u) (read_chars rest2)
                      else if (u <? 56320)%N then
                        match rest2 with
                        | String b (String v (String b1 (String b2 (String b3 (String b4 rest3))))) =>
                            match low_surrogate rest2 with
                            | Some (lo, _) =>
                                prepend
                                  (utf8 (65536 + (u - 55296) * 1024 + (lo - 56320)))
                                  (read_chars rest3)
                            | None => Beyond
                            end
                        | _ => Beyond
                        end
                      else Beyond
                  end
              | _ => Malformed
              end
            else
              match simple_escape e with
              | Some ch => prepend (String ch "") (read_chars rest1)
              | None => Malformed
              end
        end
      else prepend (String c "") (read_chars rest)
  end.

(** *** Objects *)

(** An array index: the decimal text, without spare zeros, of an integer
    below [2^32 - 1].  The keys of an object that are array indices are
    enumerated first, in ascending order; the others follow in the order in
    which they were added. *)
Definition array_index (k : string) : option N :=
  match k with
  | EmptyString => None
  | String c more =>
      if forallb is_digit (list_ascii_of_string k)
         && (match more with EmptyString => true | _ => negb (code c =? 48)%N end)
         && (String.length k <=? 10)%nat
         && (digits_value k 0 <=? 4294967294)%N
      then Some (digits_value k 0)
      else None
  end.

Fixpoint has_key (k : string) (fields : list (string * json)) : bool :=
  match fields with
  | [] => false
  | (k', _) :: rest => String.eqb k' k || has_key k rest
  end.

Fixpoint replace_value (k : string) (v : json) (fields : list (string * json))
  : list (string * json) :=
  match fields with
  | [] => []
  | (k', v') :: rest =>
      if String.eqb k' k then (k', v) :: rest else (k', v') :: replace_value k v rest
  end.

Fixpoint insert_index (i : N) (k : string) (v : json) (fields : list (string * json))
  : list (string * json) :=
  match fields with
  | [] => [(k, v)]
  | (k', v') :: rest =>
      match array_index k' with
      | Some j => if (j <? i)%N then (k', v') :: insert_index i k v rest
                  else (k, v) :: fields
      | None => (k, v) :: fields
      end
  end.

(** [o[k] = v] while the object is built: a key that is there keeps its
    place and takes the new value. *)
Definition define (fields : list (string * json)) (kv : string * json)
  : list (string * json) :=
  let '(k, v) := kv in
  if has_key k fields then replace_value k v fields
  else
    match array_index k with
    | Some i => insert_index i k v fields
    | None => fields ++ [(k, v)]
    end.

Definition build (members : list (string * json)) : json :=
  JObj (foldl define [] members).

(** *** Values *)

Fixpoint strip_prefix (p s : string) : option string :=
  match p, s with
  | EmptyString, _ => Some s
  | String a p', String b s' => if Ascii.eqb a b then strip_prefix p' s' else None
  | String _ _, EmptyString => None
  end.

Definition literal_word (word : string) (v : json) (s : string) : reading (json * string) :=
  match strip_prefix word s with
  | Some rest => Read (v, rest)
  | None => Malformed
  end.

(** One value at the head of [s], after white space, and what follows it.
    [fuel] bounds the nesting and the number of elements; the length of the
    text is enough. *)
Fixpoint read_value (fuel : nat) (s : string) : reading (json * string) :=
  match fuel with
  | O => Beyond
  | S fuel' =>
      match skip_ws s with
      | EmptyString => Malformed
      | String c rest =>
          if (code c =? 123)%N then
            match skip_ws rest with
            | String c' rest' =>
                if (code c' =? 125)%N then Read (JObj [], rest')
                else '(members, after) ← read_members fuel' rest;
                     Read (build members, after)
            | EmptyString => Malformed
            end
          else if (code c =? 91)%N then
            match skip_ws rest with
            | String c' rest' =>
                if (code c' =? 93)%N then Read (JArr [], rest')
                else '(items, after) ← read_elements fuel' rest;
                     Read (JArr items, after)
            | EmptyString => Malformed
            end
          else if (code c =? 34)%N then
            '(str, after) ← read_chars rest; Read (JStr str, after)
          else if (code c =? 116)%N then literal_word "true" (JBool true) (String c rest)
          else if (code c =? 102)%N then literal_word "false" (JBool false) (String c rest)
          else if (code c =? 110)%N then literal_word "null" JNull (String c rest)
          else if is_digit c || (code c =? 45)%N then
            text ← js_number (span number_char (String c rest)).1;
            Read (JNum text, (span number_char (String c rest)).2)
          else Malformed
      end
  end
with read_elements (fuel : nat) (s : string) : reading (list json * string) :=
  match fuel with
  | O => Beyond
  | S fuel' =>
      '(v, after) ← read_value fuel' s;
      match skip_ws after with
      | String c rest =>
          if (code c =? 44)%N then
            '(vs, after') ← read_elements fuel' rest; Read (v :: vs, after')
          else if (code c =? 93)%N then Read ([v], rest)
          else Malformed
      | EmptyString => Malformed
      end
  end
with read_members (fuel : nat) (s : string) : reading (list (string * json) * string) :=
  match fuel with
  | O => Beyond
  | S fuel' =>
      match skip_ws s with
      | String q rest =>
          if (code q =? 34)%N then
            '(k, after_key) ← read_chars rest;
            match skip_ws after_key with
            | String colon rest' =>
                if (code colon =? 58)%N then
                  '(v, after) ← read_value fuel' rest';
                  match skip_ws after with
                  | String c rest'' =>
                      if (code c =? 44)%N then
                        '(more, after') ← read_members fuel' rest'';
                        Read ((k, v) :: more, after')
                      else if (code c =? 125)%N then Read ([(k, v)], rest'')
                      else Malformed
                  | EmptyString => Malformed
                  end
                else Malformed
            | EmptyString => Malformed
            end
          else Malformed
      | EmptyString => Malformed
      end
  end.

(** [JSON.parse(text)] *)
Definition JSON_parse_text (text : string) : reading json :=
  '(v, after) ← read_value (S (String.length text)) text;
  match skip_ws after with
  | EmptyString => Read v
  | String _ _ => Malformed
  end.

(** [resp.data].  [axios] decodes the body of a response as text, drops a
    byte order mark at its head, parses the text as JSON and, when that
    fails, hands the text over as a string.  [None]: the model does not
    cover this body. *)
Definition strip_bom (s : string) : string :=
  match s with
  | String a (String b (String c rest)) =>
      if (code a =? 239)%N && (code b =? 187)%N && (code c =? 191)%N then rest else s
  | _ => s
  end.

Definition axios_data (body : string) : option json :=
  match JSON_parse_text (strip_bom body) with
  | Read v => Some v
  | Malformed => Some (JStr (strip_bom body))
  | Beyond => None
  end.

(** *** Values in the form in which [JSON.parse] gives them *)

(** A key that goes after the fields [seen] when it is defined: it is new,
    and if it is an array index all of [seen] are smaller indices. *)
Definition appendable (k : string) (seen : list (string * json)) : bool :=
  negb (has_key k seen) &&
  match array_index k with
  | Some i =>
      forallb (fun kv => match array_index kv.1 with
                         | Some j => (j <? i)%N
                         | None => false
                         end) seen
  | None => true
  end.

Fixpoint ordered (seen fields : list (string * json)) : bool :=
  match fields with
  | [] => true
  | (k, v) :: rest => appendable k seen && ordered (seen ++ [(k, v)]) rest
  end.

(** A number text is canonical when JavaScript prints the number it
    denotes with that very text. *)
Definition canonical_number (t : string) : bool :=
  match t with
  | String c _ =>
      (is_digit c || (code c =? 45)%N)
      && forallb number_char (list_ascii_of_string t)
      && match js_number t with
         | Read t' => String.eqb t' t
         | _ => false
         end
  | EmptyString => false
  end.

(** Numbers are finite and canonical, the fields of objects are in the
    order of enumeration and have distinct keys. *)
Fixpoint well_formed (v : json) : bool :=
  match v with
  | JNum t => canonical_number t
  | JArr items => forallb well_formed items
  | JObj fields => ordered [] fields && forallb (fun kv => well_formed kv.2) fields
  | _ => true
  end.

(** *** Notions used to relate [JSON.stringify] and [JSON.parse] *)

(** What may follow the text of a value: not a character of a number. *)
Definition boundary (rest : string) : Prop :=
  match rest with
  | String c _ => number_char c = false
  | EmptyString => True
  end.

(** The texts between the brackets of an array and of an object, as
    [JSON_stringify] writes them. *)
Definition join_elements : list json → string :=
  fix elements (l : list json) : string :=
    match l with
    | [] => ""
    | x :: rest =>
        JSON_stringify x ++ match rest with [] => "" | _ => "," ++ elements rest end
    end.

Definition join_members : list (string * json) → string :=
  fix members (l : list (string * json)) : string :=
    match l with
    | [] => ""
    | (k, x) :: rest =>
        quote k ++ ":" ++ JSON_stringify x ++
        match rest with [] => "" | _ => "," ++ members rest end
    end.

(** A character that is neither white space nor a closing bracket. *)
Definition opens (c : ascii) : Prop :=
  is_space c = false ∧ (code c =? 93)%N = false ∧ (code c =? 125)%N = false.

(** Reading the text of [v], with enough fuel, gives [v] back. *)
Definition reads (v : json) : Prop :=
  well_formed v = true →
  ∀ fuel rest, String.length (JSON_stringify v) < fuel → boundary rest →
    read_value fuel (JSON_stringify v ++ rest) = Read (v, rest).

End Wire.

(** ** The two proxy routes of [server/index.js] *)

Module Rest.

(** The call a route makes with [axios]; neither route sets a [timeout]. *)
Record upstream : Type := {
  method : string;
  target : string;
  payload : value;
  content_type : option string;
}.

(** What a route answers with: [res.json(v)] sends [JSON.stringify(v)] with
    status 200 unless [res.status] was called. *)
Record response : Type := {
  status : N;
  content : json;
}.

Definition body_text (r : response) : string := JSON_stringify (content r).

(** [app.get('/api/metadata/last-registered', ...)] *)
Definition last_registered_call : upstream :=
  {| method := "GET"; target := "http://localhost:8001/metadata/last";
     payload := None; content_type := None |}.

(** [app.post('/register', ...)]; [req_body] is [req.body] as the JSON body
    parser left it. *)
Definition register_call (req_body : json) : upstream :=
  {| method := "POST"; target := "http://localhost:8001/register";
     payload := Some req_body; content_type := Some "application/json" |}.

(** Both routes end alike: [res.json(r.data)] when the awaited call
    resolves, [res.status(500).json({ error: e.message })] when it is
    rejected. *)
Definition reply (o : outcome) : response :=
  match o with
  | Resolved data => {| status := 200; content := data |}
  | Rejected m => {| status := 500; content := literal [("error", Some (JStr m))] |}
  end.

End Rest.

(** ** [ChatWidget.js] *)

Module ChatWidget.

(** One entry of [messages]. *)
Record bubble : Type := {
  from : string;
  text : json;
}.

(** The state of the component: its three pieces of React state and the
    socket of [wsRef.current], of which the model keeps the [readyState] and
    the texts that [send] handed over for transmission. *)
Record widget : Type := {
  messages : list bubble;
  input : string;
  waiting : bool;
  socket : ReadyState;
  transmitted : list string;
}.

Definition initial : widget :=
  {| messages := []; input := ""; waiting := false;
     socket := CONNECTING; transmitted := [] |}.

Definition placeholder : bubble := {| from := "bot"; text := JStr "..." |}.

(** [v || k] *)
Definition or_else (v : value) (k : completion json) : completion json :=
  match v with
  | Some a => if truthy a then Normal a else k
  | None => k
  end.

(** [d.payload?.answer || d.answer || (d.error ? `Error: ${d.error}` :
    'No response')] *)
Definition answer_of (d : json) : completion json :=
  payload ← get d "payload";
  nested ← match payload with
            | None | Some JNull => Normal None
            | Some p => get p "answer"
            end;
  or_else nested (
    direct ← get d "answer";
    or_else direct (
      error ← get d "error";
      match error with
      | Some e =>
          if truthy e
          then t ← to_string e; Normal (JStr ("Error: " ++ t))
          else Normal (JStr "No response")
      | None => Normal (JStr "No response")
      end)).

(** The function given to [setMessages] in [onmessage]. *)
Definition show (answer : json) (prev : list bubble) : list bubble :=
  match last prev with
  | Some l =>
      if String.eqb (from l) "bot" && strict_eq_string (Some (text l)) "..."
      then take (length prev - 1) prev ++ [{| from := "bot"; text := answer |}]
      else prev ++ [{| from := "bot"; text := answer |}]
  | None => prev ++ [{| from := "bot"; text := answer |}]
  end.

(** The body of [try] in [onmessage]. *)
Definition onmessage_try (data : message) (c : widget) : completion widget :=
  d ← JSON_parse data;
  type ← get d "type";
  if strict_eq_string type "chat_response" then
    answer ← answer_of d;
    Normal {| messages := show answer (messages c); input := input c;
              waiting := false; socket := socket c;
              transmitted := transmitted c |}
  else Normal c.

(** [wsRef.current.onmessage]: the [catch] clause only logs. *)
Definition onmessage (data : message) (c : widget) : completion widget :=
  try_catch (onmessage_try data c) (fun _ => Normal c).

(** The object [send] hands to [JSON.stringify]. *)
Definition question (query : string) : json :=
  literal [("type", Some (JStr "chat")); ("query", Some (JStr query))].

(** [send].  The [send] of a browser socket queues the text on an open
    socket, discards it on a closing or closed one, and throws on one that
    is still connecting: the exception leaves the handler after the three
    updates of the state were queued, React applies them, and
    [setInput('')] is never reached. *)
Definition send (c : widget) : completion widget :=
  if String.eqb (input c) "" || waiting c then Normal c
  else
    let shown :=
      (messages c ++ [{| from := "user"; text := JStr (input c) |}; placeholder])%list in
    match socket c with
    | CONNECTING =>
        Normal {| messages := shown; input := input c; waiting := true;
                  socket := CONNECTING; transmitted := transmitted c |}
    | OPEN =>
        Normal {| messages := shown; input := ""; waiting := true; socket := OPEN;
                  transmitted := transmitted c ++ [JSON_stringify (question (input c))] |}
    | r =>
        Normal {| messages := shown; input := ""; waiting := true; socket := r;
                  transmitted := transmitted c |}
    end.

(** What the widget shows for an answer of the gateway. *)
Definition shown_for (o : outcome) : json :=
  match o with
  | Rejected m => JStr (if String.eqb m "" then "No response" else "Error: " ++ m)
  | Resolved (JObj fields) =>
      match own_property fields "answer" with
      | Some a => if truthy a then a else JStr "No response"
      | None => JStr "No response"
      end
  | Resolved _ => JStr "No response"
  end.

(** What happens to the component. *)
Inductive event : Type :=
  | Typed (value : string)          (* [onChange] of the input *)
  | Clicked                         (* [onClick] of the button *)
  | Received (data : message)       (* [message] on the socket *)
  | Socket (r : ReadyState).        (* the browser moves the socket to [r] *)

Definition step (c : widget) (e : event) : completion widget :=
  match e with
  | Typed value =>
      Normal {| messages := messages c; input := value; waiting := waiting c;
                socket := socket c; transmitted := transmitted c |}
  | Clicked => send c
  | Received data => onmessage data c
  | Socket r =>
      Normal {| messages := messages c; input := input c; waiting := waiting c;
                socket := r; transmitted := transmitted c |}
  end.

Fixpoint run (c : widget) (trace : list event) : completion widget :=
  match trace with
  | [] => Normal c
  | e :: rest => c' ← step c e; run c' rest
  end.

(** The events the user causes. *)
Definition by_user (e : event) : Prop :=
  match e with
  | Typed _ | Clicked => True
  | _ => False
  end.

(** The events other than the arrival of a message. *)
Definition silent (e : event) : Prop :=
  match e with
  | Received _ => False
  | _ => True
  end.

End ChatWidget.

(** ** [LiveRecognitionTab.js]

    The socket handlers, [addLog], the interval callback and [stop];
    [start], which asks for the camera, is left out. *)

Module LiveTab.

Record tab : Type := {
  logs : list string;
  isRunning : bool;
  wsStatus : string;
  socket : ReadyState;
  transmitted : list string;
}.

Definition initial : tab :=
  {| logs := []; isRunning := false; wsStatus := "disconnected";
     socket := CONNECTING; transmitted := [] |}.

(** [addLog(message)]; [timestamp] is [new Date().toLocaleTimeString()].
    [[x, ...l].slice(0, 20)] keeps the first twenty. *)
Definition addLog (timestamp message : string) (t : tab) : tab :=
  {| logs := take 20 (("[" ++ timestamp ++ "] " ++ message) :: logs t);
     isRunning := isRunning t; wsStatus := wsStatus t;
     socket := socket t; transmitted := transmitted t |}.

Definition with_status (status : string) (r : ReadyState) (t : tab) : tab :=
  {| logs := logs t; isRunning := isRunning t; wsStatus := status;
     socket := r; transmitted := transmitted t |}.

(** [ev.data], given by what [JSON.parse] makes of it: the message of the
    [SyntaxError] it throws, or the value. *)
Inductive received : Type :=
  | Garbled (syntax_error : string)
  | Text (d : json).

Definition parse (data : received) : completion json :=
  match data with
  | Garbled m => Throw m
  | Text d => Normal d
  end.

(** The body of [try] in [onmessage]. *)
Definition onmessage_try (timestamp : string) (data : received) (t : tab)
  : completion tab :=
  d ← parse data;
  type ← get d "type";
  if strict_eq_string type "recognition" then
    payload ← get d "payload";
    Normal (addLog timestamp ("Recognition: " ++ stringify_text payload) t)
  else
    error ← get d "error";
    match error with
    | Some e =>
        if truthy e
        then text ← to_string e; Normal (addLog timestamp ("Error: " ++ text) t)
        else Normal t
    | None => Normal t
    end.

(** [wsRef.current.onmessage] *)
Definition onmessage (timestamp : string) (data : received) (t : tab) : tab :=
  match onmessage_try timestamp data t with
  | Normal t' => t'
  | Throw m => addLog timestamp ("Parse error: " ++ m) t
  end.

(** [onopen], [onerror] (with [err.message], if any) and [onclose]. *)
Definition onopen (timestamp : string) (t : tab) : tab :=
  addLog timestamp "WebSocket connected" (with_status "connected" OPEN t).

Definition onerror (timestamp : string) (err_message : option string) (t : tab) : tab :=
  addLog timestamp
    ("WebSocket error: " ++
     match err_message with
     | Some m => if String.eqb m "" then "Unknown error" else m
     | None => "Unknown error"
     end)
    (with_status "error" (socket t) t).

Definition onclose (timestamp : string) (t : tab) : tab :=
  addLog timestamp "WebSocket disconnected" (with_status "disconnected" CLOSED t).

(** What the interval callback reads of the [video] element. *)
Record video : Type := {
  videoWidth : N;
  videoHeight : N;
  clientWidth : N;
  clientHeight : N;
}.

(** [a || b] on numbers *)
Definition or_number (a b : N) : N := if (a =? 0)%N then b else a.

(** The object the interval callback hands to [JSON.stringify]. *)
Definition frame (data_url : string) : json :=
  literal [("type", Some (JStr "frame")); ("image", Some (JStr data_url))].

(** The callback of [setInterval].  [element] is [videoRef.current];
    [capture] is what drawing the video on a canvas and
    [canvas.toDataURL('image/jpeg', 0.7)] come to: a data URL, or an
    exception. *)
Definition tick (timestamp : string) (element : option video)
  (capture : completion string) (t : tab) : tab :=
  match element with
  | None => t
  | Some v =>
      let w := or_number (videoWidth v) (clientWidth v) in
      let h := or_number (videoHeight v) (clientHeight v) in
      if (w =? 0)%N || (h =? 0)%N then addLog timestamp "Video dimensions not ready" t
      else
        match capture with
        | Throw m => addLog timestamp ("Capture error: " ++ m) t
        | Normal data_url =>
            if (readyState_code (socket t) =? 1)%N then
              {| logs := logs t; isRunning := isRunning t; wsStatus := wsStatus t;
                 socket := socket t;
                 transmitted := transmitted t ++ [JSON_stringify (frame data_url)] |}
            else
              addLog timestamp
                ("WebSocket not ready: state=" ++ pretty (readyState_code (socket t))) t
        end
  end.

(** [stop] *)
Definition stop (timestamp : string) (t : tab) : tab :=
  addLog timestamp "Stopped video stream"
    {| logs := logs t; isRunning := false; wsStatus := wsStatus t;
       socket := socket t; transmitted := transmitted t |}.

Inductive event : Type :=
  | Open (timestamp : string)
  | Message (timestamp : string) (data : received)
  | Error (timestamp : string) (err_message : option string)
  | Close (timestamp : string)
  | Tick (timestamp : string) (element : option video) (capture : completion string)
  | Stop (timestamp : string).

Definition step (t : tab) (e : event) : tab :=
  match e with
  | Open ts => onopen ts t
  | Message ts data => onmessage ts data t
  | Error ts m => onerror ts m t
  | Close ts => onclose ts t
  | Tick ts element capture => tick ts element capture t
  | Stop ts => stop ts t
  end.

Definition run (t : tab) (trace : list event) : tab := foldl step t trace.

End LiveTab.

(** ** [RegistrationTab.js]

    [fetchRecent] and the label of the last registered person; the camera
    and the canvas of [captureAndRegister] are left out. *)

Module RegistrationTab.

(** [useState([])] *)
Definition initial_recent : json := JArr [].

(** [fetchRecent]: [fetched] is what [fetch(...).then(r => r.json())] comes
    to, whatever the status of the response; a failure is swallowed. *)
Definition fetchRecent (fetched : completion json) (recent : json) : json :=
  match fetched with
  | Normal r => r
  | Throw _ => recent
  end.

(** [recent.name ? `${recent.name}` : 'none'] *)
Definition last_registered (recent : json) : completion string :=
  name ← get recent "name";
  match name with
  | Some n => if truthy n then to_string n else Normal "none"
  | None => Normal "none"
  end.

End RegistrationTab.

(** ** More inputs of the examples *)

Module Cases.

Definition two_clients : list Gateway.event :=
  [Connection 1700000000000 "0.4fzyo82mvyr"; Connection 1700000000250 "0.9x1c3kq07b"].

(** The server after [two_clients] connected and each sent a frame. *)
Definition two_clients_pending : state :=
  {| clients := {["17000000000004fzyo82mvyr" := 0; "17000000002509x1c3kq07b" := 1]};
     sockets := [{| id := "17000000000004fzyo82mvyr"; readyState := OPEN; sent := [] |};
                 {| id := "17000000002509x1c3kq07b"; readyState := OPEN; sent := [] |}];
     calls := [{| ws := 0; to := Recognize;
                  req := {| url := "http://localhost:8001/recognize";
                            body := [("image", Some (JStr "data:image/jpeg;base64,AAA"))];
                            timeout := 10000 |};
                  settled := false |};
               {| ws := 1; to := Recognize;
                  req := {| url := "http://localhost:8001/recognize";
                            body := [("image", Some (JStr "data:image/jpeg;base64,BBB"))];
                            timeout := 10000 |};
                  settled := false |}] |}.

(** A [chat] whose [query] is an object with a field [toString]. *)
Definition unprintable : json := JObj [("toString", JNum "1")].

Definition unprintable_chat : list (string * json) :=
  [("type", JStr "chat"); ("query", unprintable)].

(** A widget with a question typed, on an open and on a closed socket. *)
Definition asking : ChatWidget.widget :=
  {| ChatWidget.messages := []; ChatWidget.input := "Who registered last?";
     ChatWidget.waiting := false; ChatWidget.socket := OPEN;
     ChatWidget.transmitted := [] |}.

Definition asking_offline : ChatWidget.widget :=
  {| ChatWidget.messages := []; ChatWidget.input := "Who registered last?";
     ChatWidget.waiting := false; ChatWidget.socket := CLOSED;
     ChatWidget.transmitted := [] |}.

(** A question typed before the socket has opened. *)
Definition asking_early : ChatWidget.widget :=
  {| ChatWidget.messages := []; ChatWidget.input := "Who registered last?";
     ChatWidget.waiting := false; ChatWidget.socket := CONNECTING;
     ChatWidget.transmitted := [] |}.

(** The events that bring a fresh widget to wait for an answer. *)
Definition ask : list ChatWidget.event :=
  [ChatWidget.Socket OPEN; ChatWidget.Typed "Who registered last?"; ChatWidget.Clicked].

(** An answer of the chat service, as the gateway wraps it. *)
Definition alice_answer : json :=
  success Query (JObj [("answer", JStr "Alice registered last.")]).

(** A tab with an open socket, a playing video and a captured frame. *)
Definition watching : LiveTab.tab :=
  {| LiveTab.logs := []; LiveTab.isRunning := true; LiveTab.wsStatus := "connected";
     LiveTab.socket := OPEN; LiveTab.transmitted := [] |}.

Definition playing : LiveTab.video :=
  {| LiveTab.videoWidth := 640; LiveTab.videoHeight := 480;
     LiveTab.clientWidth := 320; LiveTab.clientHeight := 240 |}.

(** Two bodies of a successful response of the recognition service: one in
    JSON, with white space, a number written with a fraction and two keys
    that are array indices; one that is not JSON. *)
Definition scored_body : string :=
  wire "{'id': 7, 'score': 1.0, '10': 'x', '9': 'y'}".

Definition plain_body : string := "plain words".

End Cases.
Export Cases.

(** ** Further notions about the gateway *)

Module Accounting.

(** The socket an event is about: the one that connects, receives, closes,
    or on whose behalf the call was made. *)
Definition subject (s : state) (e : event) : option nat :=
  match e with
  | Connection _ _ => Some (length (sockets s))
  | Message w _ | PeerClosing w | Close w => Some w
  | Settle c _ | Deadline c => ws <$> calls s !! c
  end.

(** The calls made for socket [w] whose promise has settled. *)
Definition settled_calls (s : state) (w : nat) : list call :=
  filter (λ k, ws k = w ∧ settled k = true) (calls s).

(** The [close] listener has run for the socket. *)
Definition closed (sock : WebSocket) : bool :=
  bool_decide (readyState sock = CLOSED).

End Accounting.
Export Accounting.

(** ** What the callbacks do *)

Example stringify_nested :
  JSON_stringify (JObj [("matches", JArr [JObj [("name", JStr "Alice")]; JNull; JNum "0.5"])])
  = wire "{'matches':[{'name':'Alice'},null,0.5]}".
Proof. reflexivity. Qed.

Example stringify_escapes :
  JSON_stringify (JStr (String (ascii_of_N 10) (String (ascii_of_N 1) "a\b")))
  = wire "'\n\u0001a\\b'".
Proof. reflexivity. Qed.

Section Callbacks.

Implicit Types (s : state) (l : list WebSocket) (w c : nat) (k : call)
  (o : outcome) (e : event) (text : string).

Lemma is_open_true w l :
  is_open w l = true ↔ ∃ sock, l !! w = Some sock ∧ readyState sock = OPEN.
Proof.
  unfold is_open. destruct (l !! w) as [sock|]; [|split; [done|by intros (? & ? & ?)]].
  split.
  - intros H. exists sock. split; [done|]. by destruct (readyState sock).
  - intros (sock' & [= <-] & ->). done.
Qed.

Lemma guarded_send w text l :
  (if is_open w l then ws_send w text l else Normal l) = Normal (deliver w text l).
Proof.
  unfold is_open, ws_send, deliver.
  destruct (l !! w) as [sock|]; [|done].
  destruct sock as [i r out]; destruct r; simpl; done.
Qed.

Lemma then_catch_deliver w svc o l :
  then_catch w svc o l = Normal (deliver w (answer svc o) l).
Proof.
  destruct o as [data|m]; unfold then_catch, on_fulfilled, on_rejected, answer.
  - by rewrite guarded_send.
  - by rewrite guarded_send.
Qed.

Lemma on_settle_pending s c k o :
  calls s !! c = Some k → settled k = false →
  on_settle c o s =
    Normal {| clients := clients s;
              sockets := deliver (ws k) (answer (to k) o) (sockets s);
              calls := <[c := settle k]> (calls s) |}.
Proof.
  intros Hc Hk. unfold on_settle. rewrite Hc, Hk, then_catch_deliver. done.
Qed.

Lemma on_settle_stale s c o :
  (calls s !! c = None ∨ ∃ k, calls s !! c = Some k ∧ settled k = true) →
  on_settle c o s = Normal s.
Proof.
  unfold on_settle. intros [->|(k & -> & ->)]; done.
Qed.

Lemma on_message_accepted s w svc fields msg :
  accepted svc fields msg →
  on_message w msg s = Normal (axios_post w svc (request_for svc fields) s).
Proof.
  intros (-> & Hty & Hq). unfold on_message, message_try. simpl.
  rewrite Hty. destruct svc; simpl; [done|].
  rewrite (Hq eq_refl). done.
Qed.

Lemma on_message_unrecognised s w msg :
  unrecognised msg → on_message w msg s = Normal s.
Proof.
  destruct msg as [text|data]; [done|].
  destruct data as [|b|n|t|items|fields]; try done.
  simpl. intros [Hf Hc]. unfold on_message, message_try. simpl.
  destruct (own_property fields "type") as [[|b|n|t|items|fs]|]; try done.
  simpl.
  destruct (String.eqb_spec t "frame") as [->|_]; [done|].
  destruct (String.eqb_spec t "chat") as [->|_]; done.
Qed.

(** Every message either is accepted for one service, and then adds one
    call, or leaves the server as it was. *)
Lemma on_message_cases s w msg :
  (∃ svc fields, accepted svc fields msg ∧
     on_message w msg s = Normal (axios_post w svc (request_for svc fields) s)) ∨
  ((∀ svc fields, ¬ accepted svc fields msg) ∧ on_message w msg s = Normal s).
Proof.
  destruct msg as [text|data].
  { right. split; [by intros svc fields (? & _)|done]. }
  destruct data as [|b|n|t|items|fields];
    try (right; split; [by intros svc fields (? & _)|done]).
  destruct (own_property fields "type") as [ty|] eqn:Hty.
  2:{ right. split.
      - intros svc fields' ([= <-] & H & _). congruence.
      - apply on_message_unrecognised. simpl. rewrite Hty. done. }
  assert (Hother : (∀ t, ty = JStr t → t ≠ "frame" ∧ t ≠ "chat") →
            (∀ svc fields', ¬ accepted svc fields' (JSONText (JObj fields))) ∧
            on_message w (JSONText (JObj fields)) s = Normal s).
  { intros Hne. split.
    - intros svc fields' ([= <-] & H & _).
      rewrite Hty in H. injection H as ->.
      destruct (Hne _ eq_refl). by destruct svc.
    - apply on_message_unrecognised. simpl. rewrite Hty.
      split; intros [= ->]; by destruct (Hne _ eq_refl). }
  destruct ty as [|b|n|t|items|fs]; try (right; by apply Hother).
  destruct (String.eqb_spec t "frame") as [->|Hf].
  { left. exists Recognize, fields. split; [done|]. by apply on_message_accepted. }
  destruct (String.eqb_spec t "chat") as [->|Hc].
  - destruct (template (own_property fields "query")) as [[]|m] eqn:Hq.
    + left. exists Query, fields.
      assert (accepted Query fields (JSONText (JObj fields))) by done.
      split; [done|]. by apply on_message_accepted.
    + right. split.
      * intros svc fields' ([= <-] & H & Hq').
        destruct svc; simpl in H; [congruence|]. specialize (Hq' eq_refl). congruence.
      * unfold on_message, message_try. simpl. rewrite Hty. simpl. rewrite Hq. done.
  - right. apply Hother. by intros t' [= <-].
Qed.

Lemma on_settle_cases s c o :
  on_settle c o s = Normal s ∨
  ∃ k, calls s !! c = Some k ∧ settled k = false ∧
       on_settle c o s =
         Normal {| clients := clients s;
                   sockets := deliver (ws k) (answer (to k) o) (sockets s);
                   calls := <[c := settle k]> (calls s) |}.
Proof.
  destruct (calls s !! c) as [k|] eqn:Hc.
  - destruct (settled k) eqn:Hk.
    + left. apply on_settle_stale. eauto.
    + right. exists k. eauto using on_settle_pending.
  - left. apply on_settle_stale. eauto.
Qed.

Lemma deliver_lookup w text l w' :
  deliver w text l !! w' =
    if decide (w = w')
    then (λ sock, if decide (readyState sock = OPEN) then push text sock else sock)
           <$> l !! w'
    else l !! w'.
Proof.
  unfold deliver. case_decide as Hw.
  - subst w'. destruct (l !! w) as [sock|] eqn:Hl; [|by rewrite Hl].
    simpl. case_decide; [|done].
    apply list_lookup_insert_eq. by eapply lookup_lt_Some.
  - destruct (l !! w) as [sock|]; [|done].
    case_decide; [|done]. by apply list_lookup_insert_ne.
Qed.

Lemma deliver_length w text l : length (deliver w text l) = length l.
Proof.
  unfold deliver. destruct (l !! w); [|done].
  case_decide; [|done]. apply length_insert.
Qed.

End Callbacks.

(** ** Runs of the server *)

Section Runs.

Implicit Types (s : state) (l : list WebSocket) (w c : nat) (k : call)
  (o : outcome) (e : event) (trace : list event).

(** No callback lets an exception escape. *)
Lemma step_total s e : ∃ s', step s e = Normal s'.
Proof.
  destruct e as [now r|w msg|w|w|c o|c]; simpl.
  - eexists. reflexivity.
  - destruct (sockets s !! w); [|eauto].
    destruct (on_message_cases s w msg) as [(svc & fields & _ & ->)|[_ ->]]; eauto.
  - unfold peer_closing. destruct (sockets s !! w); eauto.
  - unfold on_close. destruct (sockets s !! w); eauto.
  - destruct (on_settle_cases s c o) as [->|(k & _ & _ & ->)]; eauto.
  - unfold on_deadline. destruct (calls s !! c) as [k|]; [|eauto].
    destruct (on_settle_cases s c (Rejected (axios_timeout_message (timeout (req k)))))
      as [->|(k' & _ & _ & ->)]; eauto.
Qed.

Lemma run_total s trace : ∃ s', run s trace = Normal s'.
Proof.
  revert s. induction trace as [|e trace IH]; intros s; simpl.
  - eauto.
  - destruct (step_total s e) as [s1 ->]. simpl. apply IH.
Qed.

Lemma run_app s trace1 trace2 :
  run s (trace1 ++ trace2) = s' ← run s trace1; run s' trace2.
Proof.
  revert s. induction trace1 as [|e trace1 IH]; intros s; simpl; [done|].
  destruct (step s e) as [s1|m]; simpl; [apply IH|done].
Qed.

Lemma run_snoc s trace e s1 s2 :
  run s trace = Normal s1 → step s1 e = Normal s2 → run s (trace ++ [e]) = Normal s2.
Proof.
  intros H1 H2. rewrite run_app, H1. simpl. rewrite H2. done.
Qed.

(** How one turn changes a socket: a socket that appears is open and has
    sent nothing; a socket that was there keeps its [id], and either keeps
    what it sent (and does not become open), or was open, stays open and
    sent one more answer. *)
Lemma step_socket s e s' w sock' :
  step s e = Normal s' → sockets s' !! w = Some sock' →
  (sockets s !! w = None ∧ readyState sock' = OPEN ∧ sent sock' = []) ∨
  (∃ sock, sockets s !! w = Some sock ∧ id sock' = id sock ∧
     ((sent sock' = sent sock ∧ (readyState sock ≠ OPEN → readyState sock' ≠ OPEN)) ∨
      (readyState sock = OPEN ∧ readyState sock' = OPEN ∧
       ∃ svc o, sent sock' = (sent sock ++ [answer svc o])%list))).
Proof.
  assert (Hsame : sockets s !! w = Some sock' →
    ∃ sock, sockets s !! w = Some sock ∧ id sock' = id sock ∧
     ((sent sock' = sent sock ∧ (readyState sock ≠ OPEN → readyState sock' ≠ OPEN)) ∨
      (readyState sock = OPEN ∧ readyState sock' = OPEN ∧
       ∃ svc o, sent sock' = (sent sock ++ [answer svc o])%list))) by eauto 10.
  assert (Hdeliver : ∀ w0 text,
    (∃ svc o, text = answer svc o) →
    deliver w0 text (sockets s) !! w = Some sock' →
    ∃ sock, sockets s !! w = Some sock ∧ id sock' = id sock ∧
     ((sent sock' = sent sock ∧ (readyState sock ≠ OPEN → readyState sock' ≠ OPEN)) ∨
      (readyState sock = OPEN ∧ readyState sock' = OPEN ∧
       ∃ svc o, sent sock' = (sent sock ++ [answer svc o])%list))).
  { intros w0 text (svc & o & ->). rewrite deliver_lookup.
    case_decide; [|done].
    destruct (sockets s !! w) as [sock|]; [|done]. simpl.
    case_decide as Hr; intros [= <-]; exists sock; split_and!; eauto 10. }
  destruct e as [now r|w0 msg|w0|w0|c o|c]; simpl.
  - intros [= <-]. simpl. intros [[_ H]|[-> <-]]%lookup_snoc_Some; [eauto|].
    left. split; [|done]. by apply lookup_ge_None.
  - destruct (sockets s !! w0); [|by intros [= <-]; right; eauto].
    destruct (on_message_cases s w0 msg) as [(svc & fields & _ & ->)|[_ ->]];
      intros [= <-]; right; eauto.
  - unfold peer_closing. destruct (sockets s !! w0) as [sock0|] eqn:H0;
      intros [= <-]; [|right; eauto]. simpl.
    intros [(-> & <- & _)|[_ H]]%list_lookup_insert_Some; [|right; eauto].
    right. exists sock0. split_and!; try done. left. simpl.
    split; [done|]. by destruct (readyState sock0).
  - unfold on_close. destruct (sockets s !! w0) as [sock0|] eqn:H0;
      intros [= <-]; [|right; eauto]. simpl.
    intros [(-> & <- & _)|[_ H]]%list_lookup_insert_Some; [|right; eauto].
    right. exists sock0. split_and!; try done. by left.
  - destruct (on_settle_cases s c o) as [->|(k & _ & _ & ->)]; intros [= <-].
    + right; eauto.
    + simpl. intros H. right. eapply Hdeliver; eauto.
  - unfold on_deadline. destruct (calls s !! c) as [k|]; [|by intros [= <-]; right; eauto].
    destruct (on_settle_cases s c (Rejected (axios_timeout_message (timeout (req k)))))
      as [->|(k' & _ & _ & ->)]; intros [= <-].
    + right; eauto.
    + simpl. intros H. right. eapply Hdeliver; eauto.
Qed.

End Runs.

(** ** Requests that arrive while another is pending *)

Section Sequencing.

Implicit Types (s : state) (w c : nat) (k : call) (msg : message).

Lemma outbox_axios_post s w svc r w' :
  outbox (axios_post w svc r s) w' = outbox s w'.
Proof. done. Qed.

Lemma in_flight_axios_post s w svc r :
  in_flight (axios_post w svc r s) w svc =
    (in_flight s w svc ++ [{| ws := w; to := svc; req := r; settled := false |}])%list.
Proof.
  unfold in_flight. simpl. rewrite filter_app. f_equal.
  by rewrite filter_cons_True.
Qed.

(** C1, as the code has it: a request that arrives while a request of the
    same kind of the same connection is pending is forwarded like any
    other.  The listener makes one more call to the service, sends nothing
    to the client, and leaves the pending calls as they were; this holds
    for [frame] and for [chat]. *)
Theorem second_request_is_forwarded s w svc fields msg :
  is_Some (sockets s !! w) →
  accepted svc fields msg →
  in_flight s w svc ≠ [] →
  ∃ s', step s (Message w msg) = Normal s' ∧
        outbox s' w = outbox s w ∧
        calls s' =
          (calls s ++ [{| ws := w; to := svc; req := request_for svc fields;
                          settled := false |}])%list ∧
        in_flight s' w svc =
          (in_flight s w svc ++ [{| ws := w; to := svc; req := request_for svc fields;
                                    settled := false |}])%list.
Proof.
  intros [sock Hw] Hacc _. exists (axios_post w svc (request_for svc fields) s).
  split_and!.
  - simpl. rewrite Hw. by apply on_message_accepted.
  - apply outbox_axios_post.
  - done.
  - apply in_flight_axios_post.
Qed.

End Sequencing.

Example one_frame_pending_reached :
  run initial (one_client ++ [Message 0 frame_A]) = Normal one_frame_pending.
Proof. reflexivity. Qed.

Lemma second_request_is_forwarded_witness :
  is_Some (sockets one_frame_pending !! 0) ∧
  in_flight one_frame_pending 0 Recognize ≠ [] ∧
  ∃ s', step one_frame_pending (Message 0 frame_B) = Normal s' ∧
        outbox s' 0 = outbox one_frame_pending 0 ∧
        calls s' =
          (calls one_frame_pending ++
             [{| ws := 0; to := Recognize;
                 req := request_for Recognize
                          [("type", JStr "frame");
                           ("image", JStr "data:image/jpeg;base64,BBB")];
                 settled := false |}])%list ∧
        in_flight s' 0 Recognize =
          (in_flight one_frame_pending 0 Recognize ++
             [{| ws := 0; to := Recognize;
                 req := request_for Recognize
                          [("type", JStr "frame");
                           ("image", JStr "data:image/jpeg;base64,BBB")];
                 settled := false |}])%list.
Proof.
  assert (H1 : is_Some (sockets one_frame_pending !! 0)) by (simpl; eauto).
  assert (H2 : in_flight one_frame_pending 0 Recognize ≠ []) by (vm_compute; discriminate).
  split_and!; [exact H1|exact H2|].
  apply (second_request_is_forwarded one_frame_pending 0 Recognize
           [("type", JStr "frame"); ("image", JStr "data:image/jpeg;base64,BBB")]
           frame_B H1); [|exact H2].
  split_and!; [reflexivity|reflexivity|intros [=]].
Defined.

(** C1, as the specification states it, fails: the second [frame] of a
    connection is answered with nothing, and two calls are pending after
    it. *)
Lemma second_frame_gets_no_busy :
  ∃ s1 s2,
    run initial (one_client ++ [Message 0 frame_A]) = Normal s1 ∧
    length (in_flight s1 0 Recognize) = 1 ∧
    step s1 (Message 0 frame_B) = Normal s2 ∧
    outbox s2 0 = [] ∧
    (wire "{'type':'recognition','error':'Busy'}" ∉ outbox s2 0) ∧
    length (in_flight s2 0 Recognize) = 2.
Proof.
  eexists. eexists. split_and!; try reflexivity.
  vm_compute. apply not_elem_of_nil.
Qed.

(** ** Delivery and the state of the socket *)

Section Liveness.

Implicit Types (s : state) (l : list WebSocket) (w c : nat) (k : call)
  (o : outcome) (e : event) (trace : list event).

Lemma step_sockets_length s e s' :
  step s e = Normal s' → (length (sockets s) ≤ length (sockets s'))%nat.
Proof.
  destruct e as [now r|w msg|w|w|c o|c]; simpl.
  - intros [= <-]. simpl. rewrite length_app. lia.
  - destruct (sockets s !! w); [|by intros [= <-]].
    destruct (on_message_cases s w msg) as [(svc & fields & _ & ->)|[_ ->]];
      by intros [= <-].
  - unfold peer_closing. destruct (sockets s !! w); intros [= <-]; simpl;
      by rewrite ?length_insert.
  - unfold on_close. destruct (sockets s !! w); intros [= <-]; simpl;
      by rewrite ?length_insert.
  - destruct (on_settle_cases s c o) as [->|(k & _ & _ & ->)]; intros [= <-];
      simpl; by rewrite ?deliver_length.
  - unfold on_deadline. destruct (calls s !! c) as [k|]; [|by intros [= <-]].
    destruct (on_settle_cases s c (Rejected (axios_timeout_message (timeout (req k)))))
      as [->|(k' & _ & _ & ->)]; intros [= <-]; simpl; by rewrite ?deliver_length.
Qed.

(** A socket that is not open is never asked to send, and never opens. *)
Lemma step_not_open s e w sock :
  sockets s !! w = Some sock → readyState sock ≠ OPEN →
  ∃ s' sock', step s e = Normal s' ∧ sockets s' !! w = Some sock' ∧
              readyState sock' ≠ OPEN ∧ sent sock' = sent sock.
Proof.
  intros Hw Hr. destruct (step_total s e) as [s' Hs]. exists s'.
  destruct (sockets s' !! w) as [sock'|] eqn:Hw'.
  - exists sock'.
    destruct (step_socket _ _ _ _ _ Hs Hw')
      as [(Hn & _)|(sock0 & H0 & _ & [[Hsent Hst]|(Hopen & _)])];
      simplify_eq; auto.
  - apply step_sockets_length in Hs. apply lookup_lt_Some in Hw.
    apply lookup_ge_None in Hw'. lia.
Qed.

Lemma run_not_open trace s w sock :
  sockets s !! w = Some sock → readyState sock ≠ OPEN →
  ∃ s' sock', run s trace = Normal s' ∧ sockets s' !! w = Some sock' ∧
              readyState sock' ≠ OPEN ∧ sent sock' = sent sock.
Proof.
  revert s sock. induction trace as [|e trace IH]; intros s sock Hw Hr; simpl.
  - by exists s, sock.
  - destruct (step_not_open s e w sock Hw Hr) as (s1 & sock1 & -> & Hw1 & Hr1 & Hs1).
    simpl. destruct (IH s1 sock1 Hw1 Hr1) as (s' & sock' & ? & ? & ? & ?).
    exists s', sock'. split_and!; try done. congruence.
Qed.

(** C2: once the [close] event of a connection has been handled, nothing
    that happens later makes the server call [send] on its socket, whatever
    the backend answers and whenever: both callbacks of every call test
    [ws.readyState === 1] first, and a closed socket does not reopen. *)
Theorem no_send_after_close s w trace :
  is_Some (sockets s !! w) →
  ∃ s1 s2, step s (Close w) = Normal s1 ∧
           run s1 trace = Normal s2 ∧
           is_open w (sockets s2) = false ∧
           outbox s2 w = outbox s w.
Proof.
  intros [sock Hw].
  set (closed := {| id := id sock; readyState := CLOSED; sent := sent sock |}).
  set (s1 := {| clients := delete (id sock) (clients s);
                sockets := <[w := closed]> (sockets s);
                calls := calls s |}).
  assert (Hw1 : sockets s1 !! w = Some closed).
  { apply list_lookup_insert_eq. by eapply lookup_lt_Some. }
  destruct (run_not_open trace s1 w closed Hw1) as (s2 & sock2 & Hrun & Hw2 & Hr2 & Hs2);
    [done|].
  exists s1, s2. split_and!.
  - simpl. unfold on_close. by rewrite Hw.
  - done.
  - unfold is_open. rewrite Hw2. by destruct (readyState sock2).
  - unfold outbox. by rewrite Hw2, Hw, Hs2.
Qed.

End Liveness.

Lemma no_send_after_close_witness :
  is_Some (sockets one_frame_pending !! 0) ∧
  ∃ s1 s2, step one_frame_pending (Close 0) = Normal s1 ∧
           run s1 [Settle 0 (Resolved (JObj [("matches", JArr [])]))] = Normal s2 ∧
           is_open 0 (sockets s2) = false ∧
           outbox s2 0 = outbox one_frame_pending 0.
Proof.
  assert (H : is_Some (sockets one_frame_pending !! 0)) by (simpl; eauto).
  split; [exact H|].
  exact (no_send_after_close one_frame_pending 0
           [Settle 0 (Resolved (JObj [("matches", JArr [])]))] H).
Defined.

(** ** Messages that are dropped, messages that are forwarded *)

Section Decoding.

Implicit Types (s : state) (w c : nat) (k : call) (msg : message).

(** C3, as the code has it: a message that is not JSON, or that has no
    [type] equal to ['frame'] or ['chat'] (none at all included), leaves the
    server exactly as it was: the handler returns, the socket stays as it
    is, nothing is sent and no call is made.  A [frame] without [image] or a
    [chat] without [query] is not such a message: it is forwarded with the
    field left out. *)
Theorem unrecognised_message_is_dropped s w msg :
  is_Some (sockets s !! w) →
  (unrecognised msg → step s (Message w msg) = Normal s) ∧
  (∀ svc fields,
     msg = JSONText (JObj fields) →
     own_property fields "type" = Some (JStr (inbound_type svc)) →
     own_property fields (forwarded_field svc) = None →
     step s (Message w msg) =
       Normal (axios_post w svc
                 {| url := url (request_for svc fields);
                    body := [(forwarded_field svc, None)];
                    timeout := timeout (request_for svc fields) |} s)).
Proof.
  intros [sock Hw]. split.
  - intros Hun. simpl. rewrite Hw. by apply on_message_unrecognised.
  - intros svc fields -> Hty Hnone. simpl. rewrite Hw.
    rewrite (on_message_accepted s w svc fields).
    + destruct svc; simpl in *; by rewrite Hnone.
    + split_and!; [done|done|]. intros ->. simpl in Hnone. by rewrite Hnone.
Qed.

(** C4, as the code has it: the listener looks at [type] only.  A message
    is forwarded exactly when it is an object whose [type] is ['frame'] or
    ['chat'] (and, for ['chat'], whose [query] can be logged); what is
    forwarded is whatever the message has under [image] or [query], empty,
    absent or not a string alike.  Every other message is dropped and no
    call is made for it. *)
Theorem forwarding_looks_at_type_only s w msg :
  is_Some (sockets s !! w) →
  (∀ svc fields,
     accepted svc fields msg →
     step s (Message w msg) = Normal (axios_post w svc (request_for svc fields) s) ∧
     body (request_for svc fields) =
       [(forwarded_field svc, own_property fields (forwarded_field svc))]) ∧
  ((∀ svc fields, ¬ accepted svc fields msg) → step s (Message w msg) = Normal s).
Proof.
  intros [sock Hw]. split.
  - intros svc fields Hacc. split; [|by destruct svc].
    simpl. rewrite Hw. by apply on_message_accepted.
  - intros Hno. simpl. rewrite Hw.
    destruct (on_message_cases s w msg) as [(svc & fields & Hacc & _)|[_ ->]]; [|done].
    by destruct (Hno svc fields).
Qed.

End Decoding.

Example one_client_connected_reached :
  run initial one_client = Normal one_client_connected.
Proof. reflexivity. Qed.

Lemma unrecognised_message_is_dropped_witness :
  is_Some (sockets one_client_connected !! 0) ∧
  unrecognised no_type ∧
  unrecognised (NotJSON "{type:") ∧
  step one_client_connected (Message 0 no_type) = Normal one_client_connected ∧
  step one_client_connected (Message 0 (NotJSON "{type:")) = Normal one_client_connected ∧
  step one_client_connected (Message 0 frame_without_image) =
    Normal (axios_post 0 Recognize
              {| url := "http://localhost:8001/recognize";
                 body := [("image", None)];
                 timeout := 10000 |} one_client_connected).
Proof.
  assert (H : is_Some (sockets one_client_connected !! 0)) by (simpl; eauto).
  assert (H1 : unrecognised no_type) by (simpl; split; discriminate).
  assert (H2 : unrecognised (NotJSON "{type:")) by exact I.
  split_and!; [exact H|exact H1|exact H2|..].
  - exact (proj1 (unrecognised_message_is_dropped one_client_connected 0 no_type H) H1).
  - exact (proj1 (unrecognised_message_is_dropped one_client_connected 0
                    (NotJSON "{type:") H) H2).
  - exact (proj2 (unrecognised_message_is_dropped one_client_connected 0
                    frame_without_image H)
             Recognize [("type", JStr "frame")] eq_refl eq_refl eq_refl).
Defined.

(** C3, as the specification states it, fails for a message that lacks a
    required field: a [frame] without [image] is sent to the recognition
    service, and what the service answers (here it refuses the request)
    goes out on the connection. *)
Lemma frame_without_image_is_answered :
  ∃ s1 s2,
    run initial (one_client ++ [Message 0 frame_without_image]) = Normal s1 ∧
    calls s1 = [{| ws := 0; to := Recognize;
                   req := {| url := "http://localhost:8001/recognize";
                             body := [("image", None)];
                             timeout := 10000 |};
                   settled := false |}] ∧
    step s1 (Settle 0 (Rejected "Request failed with status code 422")) = Normal s2 ∧
    outbox s2 0 =
      [wire "{'type':'recognition','error':'Request failed with status code 422'}"].
Proof.
  eexists. eexists. split_and!; reflexivity.
Qed.

Lemma forwarding_looks_at_type_only_witness :
  is_Some (sockets one_client_connected !! 0) ∧
  accepted Recognize [("type", JStr "frame"); ("image", JStr "")] frame_empty ∧
  (∀ svc fields, ¬ accepted svc fields no_type) ∧
  step one_client_connected (Message 0 frame_empty) =
    Normal (axios_post 0 Recognize
              (request_for Recognize [("type", JStr "frame"); ("image", JStr "")])
              one_client_connected) ∧
  step one_client_connected (Message 0 no_type) = Normal one_client_connected.
Proof.
  assert (H : is_Some (sockets one_client_connected !! 0)) by (simpl; eauto).
  assert (H1 : accepted Recognize [("type", JStr "frame"); ("image", JStr "")] frame_empty).
  { split_and!; [reflexivity|reflexivity|intros [=]]. }
  assert (H2 : ∀ svc fields, ¬ accepted svc fields no_type).
  { intros svc fields ([= <-] & Hty & _). simpl in Hty. discriminate. }
  split_and!; [exact H|exact H1|exact H2|..].
  - exact (proj1 (proj1 (forwarding_looks_at_type_only one_client_connected 0 frame_empty H)
                    Recognize _ H1)).
  - exact (proj2 (forwarding_looks_at_type_only one_client_connected 0 no_type H) H2).
Defined.

(** C4, as the specification states it, fails: a [frame] whose [image] is
    empty and a [chat] whose [query] is empty are both forwarded. *)
Lemma empty_content_is_forwarded :
  ∃ s,
    run initial (one_client ++ [Message 0 frame_empty; Message 0 chat_empty]) = Normal s ∧
    calls s = [{| ws := 0; to := Recognize;
                  req := {| url := "http://localhost:8001/recognize";
                            body := [("image", Some (JStr ""))];
                            timeout := 10000 |};
                  settled := false |};
               {| ws := 0; to := Query;
                  req := {| url := "http://localhost:8002/query";
                            body := [("query", Some (JStr ""))];
                            timeout := 30000 |};
                  settled := false |}].
Proof.
  eexists. split; reflexivity.
Qed.

(** ** Answers *)

Section Answers.

Implicit Types (s : state) (l : list WebSocket) (w c : nat) (k : call)
  (o : outcome) (trace : list event).

Lemma append_empty (x : string) : x ++ "" = x.
Proof.
  induction x as [|a x IH]; [done|].
  change (String a (x ++ "") = String a x). by f_equal.
Qed.

Lemma append_assoc (x y z : string) : (x ++ y) ++ z = x ++ y ++ z.
Proof.
  induction x as [|a x IH]; [done|].
  change (String a ((x ++ y) ++ z) = String a (x ++ y ++ z)). by f_equal.
Qed.

Lemma stringify_two_fields (key1 key2 : string) (v1 v2 : json) :
  JSON_stringify (JObj [(key1, v1); (key2, v2)]) =
    "{" ++ quote key1 ++ ":" ++ JSON_stringify v1 ++ "," ++
    quote key2 ++ ":" ++ JSON_stringify v2 ++ "}".
Proof.
  cbn [JSON_stringify]. by rewrite append_empty, !append_assoc.
Qed.

(** The wire text of the two answers. *)
Lemma stringify_success svc data :
  JSON_stringify (success svc data) =
    wire "{'type':'" ++ answer_type svc ++ wire "','payload':" ++
    JSON_stringify data ++ "}".
Proof.
  change (success svc data)
    with (JObj [("type", JStr (answer_type svc)); ("payload", data)]).
  rewrite stringify_two_fields. generalize (JSON_stringify data ++ "}").
  by destruct svc.
Qed.

Lemma stringify_failure svc m :
  JSON_stringify (failure svc m) =
    wire "{'type':'" ++ answer_type svc ++ wire "','error':" ++ quote m ++ "}".
Proof.
  change (failure svc m)
    with (JObj [("type", JStr (answer_type svc)); ("error", JStr m)]).
  rewrite stringify_two_fields.
  change (JSON_stringify (JStr m)) with (quote m). generalize (quote m ++ "}").
  by destruct svc.
Qed.

(** What one socket was asked to send after a delivery to [w]. *)
Lemma outbox_deliver s w text w' cl cs :
  outbox {| clients := cl; sockets := deliver w text (sockets s); calls := cs |} w' =
    if decide (w = w' ∧ is_open w (sockets s) = true)
    then (outbox s w' ++ [text])%list
    else outbox s w'.
Proof.
  unfold outbox. simpl. rewrite deliver_lookup.
  destruct (decide (w = w')) as [<-|Hne].
  - unfold is_open. destruct (sockets s !! w) as [sock|]; simpl.
    + destruct sock as [i r out]; destruct r; simpl;
        repeat case_decide; simpl; try done; intuition congruence.
    + case_decide as H; [by destruct H|done].
  - case_decide as H; [by destruct H|done].
Qed.

(** A pending call that settles while its socket is open is answered on
    that socket, and on no other. *)
Lemma settle_open s c k o :
  calls s !! c = Some k → settled k = false →
  is_open (ws k) (sockets s) = true →
  ∃ s', step s (Settle c o) = Normal s' ∧
        outbox s' (ws k) = (outbox s (ws k) ++ [answer (to k) o])%list ∧
        (∀ w, w ≠ ws k → outbox s' w = outbox s w) ∧
        (∀ w, is_open w (sockets s') = is_open w (sockets s)) ∧
        calls s' = <[c := settle k]> (calls s).
Proof.
  intros Hc Hk Hopen. eexists. split_and!.
  - simpl. by apply on_settle_pending.
  - rewrite outbox_deliver. by rewrite decide_True.
  - intros w Hw. rewrite outbox_deliver. rewrite decide_False; [done|]. intros [Heq _]. by subst.
  - intros w. unfold is_open. simpl. rewrite deliver_lookup.
    case_decide as Hw; [|done]. subst w.
    destruct (sockets s !! ws k) as [sock|]; [|done]. simpl. by case_decide.
  - done.
Qed.

(** Every call carries the [timeout] of its service. *)
Lemma step_deadlines s e s' :
  step s e = Normal s' →
  Forall (λ k, timeout (req k) = deadline (to k)) (calls s) →
  Forall (λ k, timeout (req k) = deadline (to k)) (calls s').
Proof.
  intros Hs Hall.
  assert (Hsettle : ∀ c o s1, on_settle c o s = Normal s1 →
            Forall (λ k, timeout (req k) = deadline (to k)) (calls s1)).
  { intros c o s1.
    destruct (on_settle_cases s c o) as [->|(k & Hc & _ & ->)]; intros [= <-]; [done|].
    simpl. apply Forall_insert; [done|].
    rewrite Forall_lookup in Hall. by apply (Hall c k). }
  destruct e as [now r|w msg|w|w|c o|c]; simpl in Hs.
  - by injection Hs as <-.
  - destruct (sockets s !! w); [|by injection Hs as <-].
    destruct (on_message_cases s w msg) as [(svc & fields & _ & Hm)|[_ Hm]];
      rewrite Hm in Hs; injection Hs as <-; [|done].
    simpl. apply Forall_app. split; [done|].
    apply Forall_singleton. by destruct svc.
  - unfold peer_closing in Hs. by destruct (sockets s !! w); injection Hs as <-.
  - unfold on_close in Hs. by destruct (sockets s !! w); injection Hs as <-.
  - eauto.
  - unfold on_deadline in Hs. destruct (calls s !! c); [eauto|by injection Hs as <-].
Qed.

Lemma reachable_deadlines trace s c k :
  run initial trace = Normal s → calls s !! c = Some k →
  timeout (req k) = deadline (to k).
Proof.
  intros Hrun Hc.
  assert (Hall : ∀ s0, Forall (λ k, timeout (req k) = deadline (to k)) (calls s0) →
            run s0 trace = Normal s →
            Forall (λ k, timeout (req k) = deadline (to k)) (calls s)).
  { clear. induction trace as [|e trace IH]; intros s0 H0; simpl.
    - by intros [= <-].
    - destruct (step s0 e) as [s1|m] eqn:Hs; simpl; [|done].
      apply IH. by eapply step_deadlines. }
  specialize (Hall initial (Forall_nil_2 _) Hrun).
  rewrite Forall_lookup in Hall. by apply (Hall c k).
Qed.

(** C6, as the code has it: every call carries a [timeout] of 10000 ms
    (recognition) or 30000 ms (chat).  The gateway has no failure text of
    its own: when the promise of a pending call is rejected and the socket
    is open, the client receives [{ type, error: err.message }] with the
    message of the error as it is; when the [timeout] runs out that is the
    message [axios] builds, ["timeout of 10000ms exceeded"] or
    ["timeout of 30000ms exceeded"]. *)
Theorem deadline_relays_error_message trace s c k :
  run initial trace = Normal s →
  calls s !! c = Some k →
  settled k = false →
  is_open (ws k) (sockets s) = true →
  timeout (req k) = deadline (to k) ∧
  (∀ m, ∃ s', step s (Settle c (Rejected m)) = Normal s' ∧
              outbox s' (ws k) =
                (outbox s (ws k) ++
                   [JSON_stringify (JObj [("type", JStr (answer_type (to k)));
                                          ("error", JStr m)])])%list) ∧
  ∃ s', step s (Deadline c) = Normal s' ∧
        outbox s' (ws k) =
          (outbox s (ws k) ++
             [JSON_stringify
                (JObj [("type", JStr (answer_type (to k)));
                       ("error", JStr match to k with
                                      | Recognize => "timeout of 10000ms exceeded"
                                      | Query => "timeout of 30000ms exceeded"
                                      end)])])%list.
Proof.
  intros Hrun Hc Hk Hopen.
  pose proof (reachable_deadlines trace s c k Hrun Hc) as Ht.
  split_and!; [done| |].
  - intros m.
    destruct (settle_open s c k (Rejected m) Hc Hk Hopen) as (s' & Hs & Hout & _).
    by exists s'.
  - destruct (settle_open s c k (Rejected (axios_timeout_message (timeout (req k))))
                Hc Hk Hopen) as (s' & Hs & Hout & _).
    exists s'. split.
    + simpl. unfold on_deadline. rewrite Hc. exact Hs.
    + rewrite Hout, Ht. unfold answer, failure, literal. simpl.
      by destruct (to k).
Qed.

(** C7, as the code has it: requests of one kind are not held back, so any
    number can be pending on a connection (every accepted message adds one),
    and two pending calls are answered in the order in which their promises
    settle, whichever request came first. *)
Theorem answers_follow_settling_order s w :
  is_open w (sockets s) = true →
  (∀ svc fields msg,
     accepted svc fields msg →
     ∃ s', step s (Message w msg) = Normal s' ∧
           length (in_flight s' w svc) = S (length (in_flight s w svc))) ∧
  (∀ c1 c2 k1 k2 o1 o2,
     c1 ≠ c2 →
     calls s !! c1 = Some k1 → calls s !! c2 = Some k2 →
     settled k1 = false → settled k2 = false →
     ws k1 = w → ws k2 = w →
     ∃ s', run s [Settle c1 o1; Settle c2 o2] = Normal s' ∧
           outbox s' w = (outbox s w ++ [answer (to k1) o1; answer (to k2) o2])%list).
Proof.
  intros Hopen. split.
  - intros svc fields msg Hacc.
    apply is_open_true in Hopen as (sock & Hw & _).
    exists (axios_post w svc (request_for svc fields) s). split.
    + simpl. rewrite Hw. by apply on_message_accepted.
    + rewrite in_flight_axios_post, length_app. simpl. lia.
  - intros c1 c2 k1 k2 o1 o2 Hne Hc1 Hc2 Hk1 Hk2 Hw1 Hw2. subst w.
    destruct (settle_open s c1 k1 o1 Hc1 Hk1 Hopen) as (s1 & Hs1 & Hout1 & _ & Hop1 & Hcs1).
    assert (Hc2' : calls s1 !! c2 = Some k2).
    { rewrite Hcs1. by rewrite list_lookup_insert_ne. }
    assert (Hopen2 : is_open (ws k2) (sockets s1) = true).
    { rewrite Hop1. by rewrite Hw2. }
    destruct (settle_open s1 c2 k2 o2 Hc2' Hk2 Hopen2) as (s2 & Hs2 & Hout2 & _).
    exists s2. split.
    + simpl in *. rewrite Hs1. simpl. rewrite Hs2. done.
    + rewrite <- Hw2, Hout2, Hw2, Hout1, <- app_assoc. done.
Qed.

End Answers.

Example one_chat_pending_reached :
  run initial (one_client ++ [Message 0 who_registered_last]) = Normal one_chat_pending.
Proof. reflexivity. Qed.

Lemma deadline_relays_error_message_witness :
  run initial (one_client ++ [Message 0 who_registered_last]) = Normal one_chat_pending ∧
  is_open 0 (sockets one_chat_pending) = true ∧
  ∃ s', step one_chat_pending (Deadline 0) = Normal s' ∧
        outbox s' 0 = [wire "{'type':'chat_response','error':'timeout of 30000ms exceeded'}"].
Proof.
  split_and!; [reflexivity|reflexivity|].
  destruct (deadline_relays_error_message
              (one_client ++ [Message 0 who_registered_last]) one_chat_pending 0 _
              eq_refl eq_refl eq_refl eq_refl) as (_ & _ & s' & Hs & Hout).
  exists s'. split; [exact Hs|exact Hout].
Defined.

(** C6, as the specification states it, fails: when the 30 seconds of a
    [chat] call run out, the client is sent the message of the [axios]
    error, not the word [Timeout]. *)
Lemma timeout_is_not_a_literal :
  ∃ s,
    run initial (one_client ++ [Message 0 who_registered_last; Deadline 0]) = Normal s ∧
    outbox s 0 = [wire "{'type':'chat_response','error':'timeout of 30000ms exceeded'}"] ∧
    (wire "{'type':'chat_response','error':'Timeout'}" ∉ outbox s 0).
Proof.
  eexists. split_and!; [reflexivity|reflexivity|].
  vm_compute. intros H. apply list_elem_of_singleton in H. discriminate.
Qed.

Example two_frames_pending_reached :
  run initial (one_client ++ [Message 0 frame_A; Message 0 frame_B])
  = Normal two_frames_pending.
Proof. reflexivity. Qed.

Lemma answers_follow_settling_order_witness :
  is_open 0 (sockets two_frames_pending) = true ∧
  (∃ s', step two_frames_pending (Message 0 frame_A) = Normal s' ∧
         length (in_flight s' 0 Recognize) = 3) ∧
  ∃ s', run two_frames_pending [Settle 1 (Resolved bob); Settle 0 (Resolved alice)]
        = Normal s' ∧
        outbox s' 0 =
          [wire "{'type':'recognition','payload':{'matches':[{'name':'Bob'}]}}";
           wire "{'type':'recognition','payload':{'matches':[{'name':'Alice'}]}}"].
Proof.
  assert (H : is_open 0 (sockets two_frames_pending) = true) by reflexivity.
  split_and!; [exact H| |].
  - destruct (proj1 (answers_follow_settling_order two_frames_pending 0 H)
                Recognize
                [("type", JStr "frame"); ("image", JStr "data:image/jpeg;base64,AAA")]
                frame_A) as (s' & Hs & Hlen).
    + split_and!; [reflexivity|reflexivity|intros [=]].
    + exists s'. split; [exact Hs|exact Hlen].
  - destruct (proj2 (answers_follow_settling_order two_frames_pending 0 H)
                1 0 _ _ (Resolved bob) (Resolved alice)
                ltac:(discriminate) eq_refl eq_refl eq_refl eq_refl eq_refl eq_refl)
      as (s' & Hs & Hout).
    exists s'. split; [exact Hs|exact Hout].
Defined.

(** C7, as the specification states it, fails: two [frame] requests of one
    connection are pending together, and the answer to the second is
    delivered before the answer to the first when its call settles
    first. *)
Lemma answers_out_of_request_order :
  ∃ s1 s2,
    run initial (one_client ++ [Message 0 frame_A; Message 0 frame_B]) = Normal s1 ∧
    length (in_flight s1 0 Recognize) = 2 ∧
    run s1 [Settle 1 (Resolved bob); Settle 0 (Resolved alice)] = Normal s2 ∧
    outbox s2 0 =
      [wire "{'type':'recognition','payload':{'matches':[{'name':'Bob'}]}}";
       wire "{'type':'recognition','payload':{'matches':[{'name':'Alice'}]}}"].
Proof.
  eexists. eexists. split_and!; reflexivity.
Qed.

(** ** Connection ids *)

Section Ids.

Lemma append_inj_same_length (a b x y : string) :
  String.length a = String.length b → a ++ x = b ++ y → a = b ∧ x = y.
Proof.
  revert b. induction a as [|ch a IH]; intros [|ch' b]; try done.
  intros [= Hlen].
  change (String ch (a ++ x) = String ch' (b ++ y) → String ch a = String ch' b ∧ x = y).
  intros [= -> Heq]. destruct (IH b Hlen Heq) as [-> ->]. done.
Qed.

(** C8, as the code has it: an id is the clock reading in decimal followed
    by the salt.  For two registrations whose clock readings have the same
    number of digits (as all readings between 2001 and 2286 have), the
    ids are equal exactly when both the clock readings and the salts are
    equal; so ids differ as soon as the clock or the salt differs, and
    collide when neither does. *)
Theorem ids_equal_iff (now1 now2 : N) (random1 random2 : string) :
  String.length (pretty now1) = String.length (pretty now2) →
  new_id now1 random1 = new_id now2 random2 ↔
  now1 = now2 ∧ slice 2 random1 = slice 2 random2.
Proof.
  intros Hlen. unfold new_id. split.
  - intros H. apply append_inj_same_length in H as [Hn Hr]; [|done].
    split; [|done]. by apply (inj pretty).
  - intros [-> ->]. done.
Qed.

End Ids.

Lemma ids_equal_iff_witness :
  String.length (pretty 1700000000000%N) = String.length (pretty 1700000000001%N) ∧
  (new_id 1700000000000 "0.4fzyo82mvyr" = new_id 1700000000001 "0.4fzyo82mvyr" ↔
   1700000000000%N = 1700000000001%N ∧ slice 2 "0.4fzyo82mvyr" = slice 2 "0.4fzyo82mvyr").
Proof.
  assert (H : String.length (pretty 1700000000000%N)
              = String.length (pretty 1700000000001%N)) by reflexivity.
  split; [exact H|].
  exact (ids_equal_iff 1700000000000 1700000000001 "0.4fzyo82mvyr" "0.4fzyo82mvyr" H).
Defined.

(** C8, as the specification states it, fails: two clients that connect in
    the same millisecond and draw the same salt get the same id; the second
    entry of the registry replaces the first. *)
Lemma same_clock_same_salt_same_id :
  ∃ s a b,
    run initial [Connection 1700000000000 "0.4fzyo82mvyr";
                 Connection 1700000000000 "0.4fzyo82mvyr"] = Normal s ∧
    sockets s !! 0 = Some a ∧ sockets s !! 1 = Some b ∧
    id a = id b ∧
    clients s = {["17000000000004fzyo82mvyr" := 1]}.
Proof.
  eexists. eexists. eexists. split_and!; reflexivity.
Qed.

(** Without the condition on the length of the clock readings, different
    readings and different salts can give one id. *)
Example ids_collide_across_lengths : new_id 1 "0.23" = new_id 12 "0.3".
Proof. reflexivity. Qed.

(** ** The registry *)

Section Registry.

Implicit Types (s : state) (w c : nat) (e : event) (trace : list event).

Lemma on_message_uniform w msg :
  ∃ f : state → state,
    (∀ s, on_message w msg s = Normal (f s)) ∧
    (∀ s, sockets (f s) = sockets s) ∧
    (∀ s1 s2, calls s1 = calls s2 → calls (f s1) = calls (f s2)).
Proof.
  destruct (on_message_cases initial w msg) as [(svc & fields & Hacc & _)|[Hno _]].
  - exists (axios_post w svc (request_for svc fields)). split_and!.
    + intros s. by apply on_message_accepted.
    + done.
    + intros s1 s2 H. simpl. by rewrite H.
  - exists (λ s, s). split_and!; try done.
    intros s. destruct (on_message_cases s w msg) as [(svc & fields & Hacc & _)|[_ ->]];
      [|done]. by destruct (Hno svc fields).
Qed.

(** One turn reads the sockets and the calls, never the registry. *)
Lemma step_registry_blind s1 s2 e :
  sockets s1 = sockets s2 → calls s1 = calls s2 →
  ∃ s1' s2', step s1 e = Normal s1' ∧ step s2 e = Normal s2' ∧
             sockets s1' = sockets s2' ∧ calls s1' = calls s2'.
Proof.
  intros Hsock Hcalls.
  assert (Hsettle : ∀ c o,
    ∃ s1' s2', on_settle c o s1 = Normal s1' ∧ on_settle c o s2 = Normal s2' ∧
               sockets s1' = sockets s2' ∧ calls s1' = calls s2').
  { intros c o. unfold on_settle. rewrite <- Hcalls, <- Hsock.
    destruct (calls s1 !! c) as [k|]; [|by exists s1, s2].
    destruct (settled k); [by exists s1, s2|].
    rewrite then_catch_deliver. simpl. by eexists _, _. }
  destruct e as [now r|w msg|w|w|c o|c]; simpl.
  - eexists _, _. split_and!; try done; simpl; by rewrite ?Hsock, ?Hcalls.
  - rewrite <- Hsock. destruct (sockets s1 !! w); [|by exists s1, s2].
    destruct (on_message_uniform w msg) as (f & Hf & Hfs & Hfc).
    exists (f s1), (f s2). rewrite !Hf, !Hfs. auto.
  - unfold peer_closing. rewrite <- Hsock, <- Hcalls.
    destruct (sockets s1 !! w); by eexists _, _.
  - unfold on_close. rewrite <- Hsock, <- Hcalls.
    destruct (sockets s1 !! w); by eexists _, _.
  - apply Hsettle.
  - unfold on_deadline. rewrite <- Hcalls.
    destruct (calls s1 !! c); [apply Hsettle|by exists s1, s2].
Qed.

(** C9: two servers that differ in the contents of [clients] only go
    through the same sockets and the same calls on every sequence of
    events, so every client is sent the same texts by both: the registry is
    written on connection and on close, and read by nothing. *)
Theorem registry_is_never_read s1 s2 trace :
  sockets s1 = sockets s2 → calls s1 = calls s2 →
  ∃ s1' s2', run s1 trace = Normal s1' ∧ run s2 trace = Normal s2' ∧
             sockets s1' = sockets s2' ∧ calls s1' = calls s2' ∧
             ∀ w, outbox s1' w = outbox s2' w.
Proof.
  revert s1 s2. induction trace as [|e trace IH]; intros s1 s2 Hsock Hcalls; simpl.
  - exists s1, s2. split_and!; try done. intros w. unfold outbox. by rewrite Hsock.
  - destruct (step_registry_blind s1 s2 e Hsock Hcalls)
      as (t1 & t2 & -> & -> & Hsock' & Hcalls').
    simpl. by apply IH.
Qed.

End Registry.

Lemma registry_is_never_read_witness :
  clients one_frame_pending ≠ clients one_frame_pending_unregistered ∧
  sockets one_frame_pending = sockets one_frame_pending_unregistered ∧
  calls one_frame_pending = calls one_frame_pending_unregistered ∧
  ∃ s1' s2',
    run one_frame_pending [Settle 0 (Resolved alice); Close 0] = Normal s1' ∧
    run one_frame_pending_unregistered [Settle 0 (Resolved alice); Close 0] = Normal s2' ∧
    sockets s1' = sockets s2' ∧ calls s1' = calls s2' ∧
    ∀ w, outbox s1' w = outbox s2' w.
Proof.
  split_and!; [|reflexivity|reflexivity|].
  - intros H.
    assert (Hl : clients one_frame_pending !! "17000000000004fzyo82mvyr"
                 = clients one_frame_pending_unregistered !! "17000000000004fzyo82mvyr")
      by (by rewrite H).
    vm_compute in Hl. discriminate.
  - exact (registry_is_never_read one_frame_pending one_frame_pending_unregistered
             [Settle 0 (Resolved alice); Close 0] eq_refl eq_refl).
Defined.

(** ** The shape of what is sent *)

Section Outbound.

Implicit Types (s : state) (w c : nat) (e : event) (trace : list event).

Lemma step_only_answers s e s' :
  step s e = Normal s' → only_answers s → only_answers s'.
Proof.
  intros Hs Hinv w sock' Hw'.
  destruct (step_socket s e s' w sock' Hs Hw')
    as [(_ & _ & ->)|(sock & Hw & _ & [[-> _]|(_ & _ & svc & o & ->)])].
  - constructor.
  - by apply (Hinv w sock).
  - apply Forall_app. split; [by apply (Hinv w sock)|].
    apply Forall_singleton. by exists svc, o.
Qed.

Lemma run_only_answers trace s s' :
  run s trace = Normal s' → only_answers s → only_answers s'.
Proof.
  revert s. induction trace as [|e trace IH]; intros s; simpl.
  - by intros [= <-].
  - destruct (step s e) as [s1|m] eqn:Hs; simpl; [|done].
    intros Hrun Hinv. apply (IH s1 Hrun). by eapply step_only_answers.
Qed.


End Outbound.


(** ** The registry and the sockets *)

Section RegistryContents.

Implicit Types (s : state) (w c : nat) (e : event) (trace : list event)
  (sock : WebSocket).

(** What one turn does to the registry and to the identity of the sockets:
    a connection adds a socket and sets its id; a [close] closes a socket
    and deletes its id; everything else keeps the registry, and the id and
    the closedness of every socket. *)
Lemma step_registry s e s' :
  step s e = Normal s' →
  (∃ now r, e = Connection now r ∧
     clients s' = <[new_id now r := length (sockets s)]> (clients s) ∧
     sockets s' = (sockets s ++ [{| id := new_id now r; readyState := OPEN;
                                    sent := [] |}])%list) ∨
  (∃ w0 sock0, e = Close w0 ∧ sockets s !! w0 = Some sock0 ∧
     clients s' = delete (id sock0) (clients s) ∧
     sockets s' = <[w0 := {| id := id sock0; readyState := CLOSED;
                             sent := sent sock0 |}]> (sockets s)) ∨
  (clients s' = clients s ∧
   ∀ w, (λ sock, (id sock, closed sock)) <$> sockets s' !! w =
        (λ sock, (id sock, closed sock)) <$> sockets s !! w).
Proof.
  assert (Hsettle : ∀ c o, on_settle c o s = Normal s' →
    clients s' = clients s ∧
    ∀ w, (λ sock, (id sock, closed sock)) <$> sockets s' !! w =
         (λ sock, (id sock, closed sock)) <$> sockets s !! w).
  { intros c o. destruct (on_settle_cases s c o) as [->|(k & _ & _ & ->)];
      intros [= <-]; [done|]. split; [done|]. intros w. simpl.
    rewrite deliver_lookup. case_decide; [|done].
    destruct (sockets s !! w) as [sock|]; [|done]. simpl. by case_decide. }
  destruct e as [now r|w0 msg|w0|w0|c o|c]; simpl.
  - intros [= <-]. left. by exists now, r.
  - intros Hs. right. right.
    destruct (sockets s !! w0); [|by injection Hs as <-].
    destruct (on_message_cases s w0 msg) as [(svc & fields & _ & Hm)|[_ Hm]];
      rewrite Hm in Hs; by injection Hs as <-.
  - unfold peer_closing. destruct (sockets s !! w0) as [sock0|] eqn:H0;
      intros [= <-]; right; right; [|done]. split; [done|]. intros w. simpl.
    destruct (decide (w0 = w)) as [<-|Hne].
    + rewrite list_lookup_insert_eq by (by eapply lookup_lt_Some).
      rewrite H0. simpl. unfold closed. simpl. by destruct (readyState sock0).
    + by rewrite list_lookup_insert_ne.
  - unfold on_close. destruct (sockets s !! w0) as [sock0|] eqn:H0; intros [= <-].
    + right. left. by exists w0, sock0.
    + by right; right.
  - intros Hs. right. right. eauto.
  - unfold on_deadline. intros Hs. right. right.
    destruct (calls s !! c); [eauto|by injection Hs as <-].
Qed.

(** An id in the registry names a socket that has that id and for which
    [close] has not run. *)
Lemma step_registry_sound s e s' :
  step s e = Normal s' →
  (∀ i w, clients s !! i = Some w →
     ∃ sock, sockets s !! w = Some sock ∧ id sock = i ∧ closed sock = false) →
  ∀ i w, clients s' !! i = Some w →
    ∃ sock, sockets s' !! w = Some sock ∧ id sock = i ∧ closed sock = false.
Proof.
  intros Hs Hinv i w Hi.
  destruct (step_registry s e s' Hs)
    as [(now & r & -> & Hc & Hl)|[(w0 & sock0 & -> & H0 & Hc & Hl)|[Hc Hl]]].
  - rewrite Hc in Hi. rewrite Hl. apply lookup_insert_Some in Hi as [[<- <-]|[Hne Hi]].
    + eexists. split; [apply list_lookup_middle; done|done].
    + destruct (Hinv i w Hi) as (sock & Hw & ? & ?). exists sock.
      split; [|done]. by apply lookup_app_l_Some.
  - rewrite Hc in Hi. apply lookup_delete_Some in Hi as [Hne Hi].
    destruct (Hinv i w Hi) as (sock & Hw & Hid & Hcl). exists sock.
    split; [|done]. rewrite Hl. rewrite list_lookup_insert_ne; [done|].
    intros <-. congruence.
  - rewrite Hc in Hi. destruct (Hinv i w Hi) as (sock & Hw & Hid & Hcl).
    specialize (Hl w). rewrite Hw in Hl. simpl in Hl.
    destruct (sockets s' !! w) as [sock'|]; [|done]. injection Hl as Hid' Hcl'.
    exists sock'. split; [done|]. split; congruence.
Qed.

(** X1: the registry never keeps a connection whose [close] has been
    handled: in every state the server can reach, every id of [clients] is
    mapped to a socket that carries that id and has not been closed. *)
Theorem registry_holds_no_closed_socket trace s i w :
  run initial trace = Normal s →
  clients s !! i = Some w →
  ∃ sock, sockets s !! w = Some sock ∧ id sock = i ∧ readyState sock ≠ CLOSED.
Proof.
  intros Hrun Hi.
  assert (H : ∀ s0,
    (∀ i w, clients s0 !! i = Some w →
       ∃ sock, sockets s0 !! w = Some sock ∧ id sock = i ∧ closed sock = false) →
    run s0 trace = Normal s →
    ∃ sock, sockets s !! w = Some sock ∧ id sock = i ∧ closed sock = false).
  { clear Hrun. induction trace as [|e trace IH]; intros s0 H0; simpl.
    - intros [= ->]. by apply H0.
    - destruct (step s0 e) as [s1|m] eqn:Hs; simpl; [|done].
      apply IH. by eapply step_registry_sound. }
  destruct (H initial) as (sock & Hw & Hid & Hcl); [by intros i0 w0|done|].
  exists sock. split_and!; [done|done|].
  unfold closed in Hcl. by apply bool_decide_eq_false in Hcl.
Qed.

(** A socket for which [close] has not run and whose id no other socket
    shares is registered under its id. *)
Lemma step_registers s e s' :
  step s e = Normal s' →
  (∀ w sock, sockets s !! w = Some sock → closed sock = false →
     (∀ w' sock', sockets s !! w' = Some sock' → id sock' = id sock → w' = w) →
     clients s !! id sock = Some w) →
  ∀ w sock, sockets s' !! w = Some sock → closed sock = false →
    (∀ w' sock', sockets s' !! w' = Some sock' → id sock' = id sock → w' = w) →
    clients s' !! id sock = Some w.
Proof.
  intros Hs Hinv w sock Hw Hcl Huniq.
  destruct (step_registry s e s' Hs)
    as [(now & r & -> & Hc & Hl)|[(w0 & sock0 & -> & H0 & Hc & Hl)|[Hc Hl]]].
  - rewrite Hc. rewrite Hl in Hw, Huniq.
    apply lookup_snoc_Some in Hw as [[Hlt Hw]|[-> <-]].
    + assert (id sock ≠ new_id now r) as Hne.
      { intros Heq. specialize (Huniq (length (sockets s)) _ (list_lookup_middle _ [] _ _ eq_refl)).
        simpl in Huniq. specialize (Huniq (eq_sym Heq)). lia. }
      rewrite lookup_insert_ne by done. apply Hinv; [done|done|].
      intros w' sock' Hw' Hid. apply (Huniq w' sock'); [|done].
      by apply lookup_app_l_Some.
    + simpl. by rewrite lookup_insert_eq.
  - rewrite Hc. rewrite Hl in Hw, Huniq.
    destruct (decide (w0 = w)) as [<-|Hne].
    { rewrite list_lookup_insert_eq in Hw by (by eapply lookup_lt_Some).
      injection Hw as <-. done. }
    rewrite list_lookup_insert_ne in Hw by done.
    assert (id sock0 ≠ id sock) as Hid.
    { intros Heq. apply Hne. apply (Huniq w0 {| id := id sock0; readyState := CLOSED;
                                               sent := sent sock0 |}); [|done].
      apply list_lookup_insert_eq. by eapply lookup_lt_Some. }
    rewrite lookup_delete_ne by done. apply Hinv; [done|done|].
    intros w' sock' Hw' Hid'. destruct (decide (w0 = w')) as [<-|Hne'].
    + rewrite H0 in Hw'. injection Hw' as <-. congruence.
    + apply (Huniq w' sock'); [|done]. by rewrite list_lookup_insert_ne.
  - rewrite Hc. pose proof (Hl w) as Hlw. rewrite Hw in Hlw. simpl in Hlw.
    destruct (sockets s !! w) as [sock0|] eqn:Hw0; [|done]. injection Hlw as Hid Hcl0.
    rewrite Hid. apply Hinv; [done|congruence|].
    intros w' sock' Hw' Hid'. pose proof (Hl w') as Hlw'. rewrite Hw' in Hlw'.
    destruct (sockets s' !! w') as [sock''|] eqn:Hw''; [|done]. injection Hlw' as Hid'' _.
    apply (Huniq w' sock''); [done|congruence].
Qed.

(** X2: a connection that has not been closed and whose id no other
    connection of the run was given is found in the registry under its id,
    mapped to its own socket. *)
Theorem live_socket_is_registered trace s w sock :
  run initial trace = Normal s →
  sockets s !! w = Some sock →
  readyState sock ≠ CLOSED →
  (∀ w' sock', sockets s !! w' = Some sock' → id sock' = id sock → w' = w) →
  clients s !! id sock = Some w.
Proof.
  intros Hrun Hw Hcl Huniq.
  assert (H : ∀ s0,
    (∀ w sock, sockets s0 !! w = Some sock → closed sock = false →
       (∀ w' sock', sockets s0 !! w' = Some sock' → id sock' = id sock → w' = w) →
       clients s0 !! id sock = Some w) →
    run s0 trace = Normal s →
    ∀ w sock, sockets s !! w = Some sock → closed sock = false →
      (∀ w' sock', sockets s !! w' = Some sock' → id sock' = id sock → w' = w) →
      clients s !! id sock = Some w).
  { clear. induction trace as [|e trace IH]; intros s0 H0; simpl.
    - by intros [= ->].
    - destruct (step s0 e) as [s1|m] eqn:Hs; simpl; [|done].
      apply IH. by eapply step_registers. }
  apply (H initial); try done.
  unfold closed. by apply bool_decide_eq_false.
Qed.

End RegistryContents.

(** ** Connections do not interfere *)

Section Independence.

Implicit Types (s : state) (w c : nat) (k : call) (o : outcome) (e : event)
  (trace : list event) (sock : WebSocket).

(** X3: handling [close] twice for one socket is the same as handling it
    once: the second [clients.delete(id)] finds nothing to delete and the
    socket stays closed. *)
Theorem close_twice s w :
  run s [Close w; Close w] = step s (Close w).
Proof.
  simpl. unfold on_close. destruct (sockets s !! w) as [sock|] eqn:Hw; simpl.
  - rewrite list_lookup_insert_eq by (by eapply lookup_lt_Some). simpl.
    by rewrite delete_delete_eq, list_insert_insert_eq.
  - by rewrite Hw.
Qed.

(** X4: one turn of the event loop changes no socket but the one the event
    is about: what another connection has been sent, its state and its id
    stay as they are. *)
Theorem other_sockets_untouched s e s' w sock :
  step s e = Normal s' →
  sockets s !! w = Some sock →
  subject s e ≠ Some w →
  sockets s' !! w = Some sock.
Proof.
  intros Hs Hw Hsub.
  assert (Hsettle : ∀ c o, (ws <$> calls s !! c) ≠ Some w →
            on_settle c o s = Normal s' → sockets s' !! w = Some sock).
  { intros c o Hc. destruct (on_settle_cases s c o) as [->|(k & Hk & _ & ->)];
      intros [= <-]; [done|]. simpl. rewrite deliver_lookup.
    rewrite Hk in Hc. simpl in Hc. case_decide; [congruence|done]. }
  destruct e as [now r|w0 msg|w0|w0|c o|c]; simpl in *.
  - injection Hs as <-. simpl. by apply lookup_app_l_Some.
  - destruct (sockets s !! w0); [|by injection Hs as <-].
    destruct (on_message_cases s w0 msg) as [(svc & fields & _ & Hm)|[_ Hm]];
      rewrite Hm in Hs; by injection Hs as <-.
  - unfold peer_closing in Hs. destruct (sockets s !! w0); injection Hs as <-; [|done].
    simpl. rewrite list_lookup_insert_ne; [done|congruence].
  - unfold on_close in Hs. destruct (sockets s !! w0); injection Hs as <-; [|done].
    simpl. rewrite list_lookup_insert_ne; [done|congruence].
  - eauto.
  - unfold on_deadline in Hs. destruct (calls s !! c) eqn:Hc; [|by injection Hs as <-].
    eapply Hsettle; [|done]. by rewrite Hc.
Qed.

(** X5: a request and its answer make a round trip on one socket.  When an
    open socket sends a message that is accepted for a service and the call
    made for it settles, the answer to that outcome, of the type of that
    service, is appended to what this socket was sent; no other socket is
    sent anything, and the pending calls are again those of before. *)
Theorem request_is_answered_on_its_socket s w svc fields msg o :
  is_open w (sockets s) = true →
  accepted svc fields msg →
  ∃ s', run s [Message w msg; Settle (length (calls s)) o] = Normal s' ∧
        outbox s' w = (outbox s w ++ [answer svc o])%list ∧
        (∀ w', w' ≠ w → outbox s' w' = outbox s w') ∧
        in_flight s' w svc = in_flight s w svc.
Proof.
  intros Hopen Hacc.
  pose proof Hopen as (sock & Hw & _)%is_open_true.
  set (k := {| ws := w; to := svc; req := request_for svc fields; settled := false |}).
  set (s1 := axios_post w svc (request_for svc fields) s).
  assert (Hk : calls s1 !! length (calls s) = Some k) by (by apply list_lookup_middle).
  destruct (settle_open s1 (length (calls s)) k o Hk eq_refl Hopen)
    as (s' & Hs' & Hout & Hothers & _ & Hcalls).
  exists s'. split_and!.
  - simpl. rewrite Hw. simpl. rewrite (on_message_accepted s w svc fields msg Hacc).
    simpl. simpl in Hs'. unfold s1 in Hs'. by rewrite Hs'.
  - exact Hout.
  - intros w' Hne. by rewrite (Hothers w' Hne).
  - unfold in_flight. rewrite Hcalls. simpl.
    replace (length (calls s)) with (length (calls s) + 0) by lia.
    rewrite insert_app_r. simpl. rewrite filter_app, filter_cons_False, filter_nil.
    + by rewrite app_nil_r.
    + simpl. by intros (_ & _ & ?).
Qed.

(** X7: a [chat] whose [query] cannot be converted to a string (an object
    with a [toString] field, or an array that holds one) is dropped without
    a call, because the log line of the listener throws inside [try]; the
    same value sent as the [image] of a [frame] is forwarded. *)
Theorem unprintable_query_is_dropped s w fields v :
  is_Some (sockets s !! w) →
  to_string_throws v = true →
  (own_property fields "type" = Some (JStr "chat") →
   own_property fields "query" = Some v →
   step s (Message w (JSONText (JObj fields))) = Normal s) ∧
  (own_property fields "type" = Some (JStr "frame") →
   own_property fields "image" = Some v →
   step s (Message w (JSONText (JObj fields))) =
     Normal (axios_post w Recognize
               {| url := "http://localhost:8001/recognize";
                  body := [("image", Some v)];
                  timeout := 10000 |} s)).
Proof.
  intros [sock Hw] Hv. split; intros Hty Hf; simpl; rewrite Hw;
    unfold on_message, message_try; simpl; rewrite Hty; simpl; rewrite Hf; simpl.
  - by rewrite Hv.
  - done.
Qed.

End Independence.

(** ** As many answers as settled calls *)

Section Counting.

Local Open Scope nat_scope.

Implicit Types (s : state) (w c : nat) (k : call) (o : outcome) (e : event)
  (trace : list event) (sock : WebSocket).

Lemma filter_settle (l : list call) c k w :
  l !! c = Some k → settled k = false →
  length (filter (λ k, ws k = w ∧ settled k = true) (<[c := settle k]> l)) =
    if decide (ws k = w)
    then S (length (filter (λ k, ws k = w ∧ settled k = true) l))
    else length (filter (λ k, ws k = w ∧ settled k = true) l).
Proof.
  revert c. induction l as [|x l IH]; intros c Hc Hk; [done|].
  destruct c as [|c]; simpl in *.
  - injection Hc as ->. rewrite !filter_cons. simpl. rewrite Hk.
    repeat case_decide; simpl; try done; intuition congruence.
  - specialize (IH c Hc Hk). rewrite !filter_cons.
    destruct (decide (ws x = w ∧ settled x = true)); simpl; rewrite IH;
      by case_decide.
Qed.

Lemma settled_calls_fresh s w :
  Forall (λ k, ws k < length (sockets s)) (calls s) →
  length (sockets s) ≤ w → settled_calls s w = [].
Proof.
  unfold settled_calls. induction (calls s) as [|x l IH]; [done|].
  intros [Hx Hl]%Forall_cons Hw. rewrite filter_cons_False; [by apply IH|].
  intros [Heq _]. lia.
Qed.

Lemma settled_calls_settle s c k w cl l :
  calls s !! c = Some k → settled k = false →
  length (settled_calls {| clients := cl; sockets := l;
                           calls := <[c := settle k]> (calls s) |} w) =
    if decide (ws k = w) then S (length (settled_calls s w))
    else length (settled_calls s w).
Proof. intros Hc Hk. by apply filter_settle. Qed.

Lemma step_counts s e s' :
  step s e = Normal s' →
  Forall (λ k, ws k < length (sockets s)) (calls s) →
  (∀ w sock, sockets s !! w = Some sock →
     length (sent sock) ≤ length (settled_calls s w) ∧
     (readyState sock = OPEN → length (sent sock) = length (settled_calls s w))) →
  Forall (λ k, ws k < length (sockets s')) (calls s') ∧
  (∀ w sock, sockets s' !! w = Some sock →
     length (sent sock) ≤ length (settled_calls s' w) ∧
     (readyState sock = OPEN → length (sent sock) = length (settled_calls s' w))).
Proof.
  intros Hs Hbound Hinv.
  assert (Hsettle : ∀ c o, on_settle c o s = Normal s' →
    Forall (λ k, ws k < length (sockets s')) (calls s') ∧
    (∀ w sock, sockets s' !! w = Some sock →
       length (sent sock) ≤ length (settled_calls s' w) ∧
       (readyState sock = OPEN → length (sent sock) = length (settled_calls s' w)))).
  { intros c o. destruct (on_settle_cases s c o) as [->|(k & Hc & Hk & ->)];
      intros [= <-]; [done|]. split.
    - simpl. rewrite deliver_length. apply Forall_insert; [done|].
      rewrite Forall_lookup in Hbound. by apply (Hbound c k).
    - intros w sock. rewrite (settled_calls_settle s c k w _ _ Hc Hk). simpl.
      rewrite deliver_lookup. case_decide as Hw.
      + subst w. destruct (sockets s !! ws k) as [sock0|] eqn:H0; [|done]. simpl.
        destruct (Hinv _ _ H0) as [Hle Heq].
        case_decide as Hr; intros [= <-]; simpl.
        * rewrite length_app. simpl. split; [lia|]. intros _. rewrite Heq by done. lia.
        * split; [lia|done].
      + intros H0. by apply Hinv. }
  destruct e as [now r|w0 msg|w0|w0|c o|c]; simpl in Hs.
  - injection Hs as <-. simpl. split.
    + rewrite length_app. simpl. eapply Forall_impl; [done|]. simpl. lia.
    + intros w sock [[_ Hw]|[-> <-]]%lookup_snoc_Some; [by apply Hinv|]. simpl.
      split; [lia|]. intros _.
      change (settled_calls _ (length (sockets s)))
        with (settled_calls s (length (sockets s))).
      by rewrite settled_calls_fresh.
  - destruct (sockets s !! w0) as [sock0|] eqn:H0; [|by injection Hs as <-].
    destruct (on_message_cases s w0 msg) as [(svc & fields & _ & Hm)|[_ Hm]];
      rewrite Hm in Hs; injection Hs as <-; [|done]. split.
    + simpl. apply Forall_app. split; [done|]. apply Forall_singleton. simpl.
      by eapply lookup_lt_Some.
    + intros w sock Hw. unfold settled_calls. simpl.
      rewrite filter_app, filter_cons_False, filter_nil, app_nil_r by (by intros [_ ?]).
      by apply Hinv.
  - unfold peer_closing in Hs. destruct (sockets s !! w0) as [sock0|] eqn:H0;
      injection Hs as <-; [|done]. simpl. rewrite length_insert. split; [done|].
    intros w sock [(-> & <- & _)|[_ Hw]]%list_lookup_insert_Some; [|by apply Hinv].
    simpl. split; [by apply (Hinv _ _ H0)|]. by destruct (readyState sock0).
  - unfold on_close in Hs. destruct (sockets s !! w0) as [sock0|] eqn:H0;
      injection Hs as <-; [|done]. simpl. rewrite length_insert. split; [done|].
    intros w sock [(-> & <- & _)|[_ Hw]]%list_lookup_insert_Some; [|by apply Hinv].
    simpl. split; [by apply (Hinv _ _ H0)|done].
  - eauto.
  - unfold on_deadline in Hs. destruct (calls s !! c); [eauto|by injection Hs as <-].
Qed.

(** X6: the server never sends a connection more than it was asked for, and
    owes an open connection nothing: in every state it can reach, a socket
    has been sent at most as many texts as calls made for it have settled,
    and exactly as many while it is still open. *)
Theorem one_answer_per_settled_call trace s w sock :
  run initial trace = Normal s →
  sockets s !! w = Some sock →
  length (outbox s w) ≤ length (settled_calls s w) ∧
  (readyState sock = OPEN → length (outbox s w) = length (settled_calls s w)).
Proof.
  intros Hrun Hw. unfold outbox. rewrite Hw.
  assert (H : ∀ s0,
    Forall (λ k, ws k < length (sockets s0)) (calls s0) ∧
    (∀ w sock, sockets s0 !! w = Some sock →
       length (sent sock) ≤ length (settled_calls s0 w) ∧
       (readyState sock = OPEN → length (sent sock) = length (settled_calls s0 w))) →
    run s0 trace = Normal s →
    ∀ w sock, sockets s !! w = Some sock →
       length (sent sock) ≤ length (settled_calls s w) ∧
       (readyState sock = OPEN → length (sent sock) = length (settled_calls s w))).
  { clear. induction trace as [|e trace IH]; intros s0 [Hb Hi]; simpl.
    - by intros [= ->].
    - destruct (step s0 e) as [s1|m] eqn:Hs; simpl; [|done].
      apply IH. by eapply step_counts. }
  apply (H initial); [split; [constructor|by intros w0 sock0]|done|done].
Qed.

End Counting.

(** ** The chat widget *)

Section Chat.

Import ChatWidget.

Implicit Types (c : widget) (d a : json) (e : ChatWidget.event)
  (trace : list ChatWidget.event).

Lemma onmessage_cases data c :
  onmessage data c = Normal c ∨
  ∃ d a, data = JSONText d ∧
         get d "type" = Normal (Some (JStr "chat_response")) ∧
         answer_of d = Normal a ∧
         onmessage data c =
           Normal {| messages := show a (messages c); input := input c;
                     waiting := false; socket := socket c;
                     transmitted := transmitted c |}.
Proof.
  unfold onmessage, onmessage_try. destruct data as [t|d]; simpl; [by left|].
  destruct (get d "type") as [ty|m] eqn:Hty; simpl; [|by left].
  destruct ty as [[|b|n|t|items|fs]|]; simpl; try by left.
  destruct (String.eqb_spec t "chat_response") as [->|_]; [|by left].
  destruct (answer_of d) as [a|m] eqn:Ha; simpl; [|by left].
  right. by exists d, a.
Qed.

Lemma onmessage_answer d a c :
  get d "type" = Normal (Some (JStr "chat_response")) →
  answer_of d = Normal a →
  onmessage (JSONText d) c =
    Normal {| messages := show a (messages c); input := input c;
              waiting := false; socket := socket c;
              transmitted := transmitted c |}.
Proof.
  intros Hty Ha. unfold onmessage, onmessage_try. simpl.
  rewrite Hty. simpl. rewrite Ha. done.
Qed.

Lemma show_placeholder a (before : list bubble) :
  show a (before ++ [placeholder]) = (before ++ [{| from := "bot"; text := a |}])%list.
Proof.
  unfold show. rewrite last_snoc. simpl.
  rewrite length_app. simpl.
  replace (length before + 1 - 1) with (length before) by lia.
  by rewrite take_app_length.
Qed.

(** While the widget waits, the last bubble is the placeholder. *)
Lemma step_waiting c e c' :
  ChatWidget.step c e = Normal c' →
  (waiting c = true → last (messages c) = Some placeholder) →
  waiting c' = true → last (messages c') = Some placeholder.
Proof.
  destruct e as [v|  |data|r]; simpl.
  - intros [= <-]. done.
  - unfold send. destruct (String.eqb (input c) "" || waiting c) eqn:Hg.
    + intros [= <-]. done.
    + destruct (socket c); intros [= <-] _ _; simpl; by rewrite last_app.
  - destruct (onmessage_cases data c) as [->|(d & a & _ & _ & _ & ->)];
      intros [= <-]; done.
  - intros [= <-]. done.
Qed.

Lemma run_waiting trace c c' :
  ChatWidget.run c trace = Normal c' →
  (waiting c = true → last (messages c) = Some placeholder) →
  waiting c' = true → last (messages c') = Some placeholder.
Proof.
  revert c. induction trace as [|e trace IH]; intros c; simpl.
  - by intros [= <-].
  - destruct (ChatWidget.step c e) as [c1|m] eqn:Hs; simpl; [|done].
    intros Hrun Hinv. apply (IH c1 Hrun). by eapply step_waiting.
Qed.

(** X11: while the widget waits for an answer, the last bubble is the
    placeholder ["..."]; so a [chat_response] that arrives then takes the
    place of the placeholder: the bubbles before it stay, their number does
    not change, and the widget stops waiting. *)
Theorem answer_replaces_placeholder trace c d a :
  ChatWidget.run ChatWidget.initial trace = Normal c →
  waiting c = true →
  get d "type" = Normal (Some (JStr "chat_response")) →
  answer_of d = Normal a →
  ∃ before,
    messages c = (before ++ [placeholder])%list ∧
    onmessage (JSONText d) c =
      Normal {| messages := before ++ [{| from := "bot"; text := a |}];
                input := input c; waiting := false; socket := socket c;
                transmitted := transmitted c |}.
Proof.
  intros Hrun Hw Hty Ha.
  assert (Hlast : last (messages c) = Some placeholder).
  { by apply (run_waiting trace ChatWidget.initial c Hrun). }
  apply last_Some in Hlast as [before Hm]. exists before. split; [done|].
  rewrite (onmessage_answer d a c Hty Ha), Hm, show_placeholder. done.
Qed.

(** X12: one exchange.  From a widget that is not waiting, has a question
    typed and an open socket, a click followed by the arrival of a
    [chat_response] leaves exactly two more bubbles, the question and the
    answer, an empty input, one text handed to the socket, and a widget
    that waits no more. *)
Theorem exchange_adds_two_bubbles c d a :
  waiting c = false →
  input c ≠ "" →
  socket c = OPEN →
  get d "type" = Normal (Some (JStr "chat_response")) →
  answer_of d = Normal a →
  ChatWidget.run c [Clicked; Received (JSONText d)] =
    Normal {| messages := messages c ++ [{| from := "user"; text := JStr (input c) |};
                                         {| from := "bot"; text := a |}];
              input := ""; waiting := false; socket := OPEN;
              transmitted := transmitted c ++ [JSON_stringify (question (input c))] |}.
Proof.
  intros Hw Hin Hopen Hty Ha. simpl. unfold send.
  destruct (String.eqb_spec (input c) "") as [?|_]; [done|].
  rewrite Hw, Hopen. simpl. rewrite (onmessage_answer d a _ Hty Ha). simpl.
  replace (messages c ++ [{| from := "user"; text := JStr (input c) |}; placeholder])%list
    with ((messages c ++ [{| from := "user"; text := JStr (input c) |}]) ++ [placeholder])%list
    by (by rewrite <- app_assoc).
  rewrite show_placeholder, <- app_assoc. done.
Qed.

Lemma step_by_user_waiting c e :
  waiting c = true → by_user e →
  ∃ c', ChatWidget.step c e = Normal c' ∧ waiting c' = true ∧
        messages c' = messages c ∧ socket c' = socket c ∧
        transmitted c' = transmitted c.
Proof.
  intros Hw. destruct e as [v| |data|r]; simpl; try done; intros _.
  - by eexists.
  - unfold send. rewrite Hw, orb_true_r. by exists c.
Qed.

(** X13: a question asked while the socket is closing or closed is lost for
    good.  The click shows the question and the placeholder and makes the
    widget wait, but hands nothing to the socket; and whatever the user
    types or clicks afterwards, the widget keeps waiting, shows the same
    bubbles and still has handed over nothing. *)
Theorem question_on_closed_socket_is_lost c trace :
  waiting c = false →
  input c ≠ "" →
  socket c = CLOSING ∨ socket c = CLOSED →
  Forall by_user trace →
  ∃ c', ChatWidget.run c (Clicked :: trace) = Normal c' ∧
        waiting c' = true ∧
        messages c' =
          (messages c ++ [{| from := "user"; text := JStr (input c) |}; placeholder])%list ∧
        transmitted c' = transmitted c.
Proof.
  intros Hw Hin Hsock Htrace.
  assert (Hrun : ∀ c1, waiting c1 = true →
            ∃ c', ChatWidget.run c1 trace = Normal c' ∧ waiting c' = true ∧
                  messages c' = messages c1 ∧ transmitted c' = transmitted c1).
  { induction Htrace as [|e trace He _ IH]; intros c1 H1; simpl.
    - by exists c1.
    - destruct (step_by_user_waiting c1 e H1 He) as (c2 & -> & H2 & Hm & _ & Ht).
      simpl. destruct (IH c2 H2) as (c' & ? & ? & ? & ?).
      exists c'. split_and!; [done|done|congruence|congruence]. }
  simpl. unfold send.
  destruct (String.eqb_spec (input c) "") as [?|_]; [done|]. rewrite Hw. simpl.
  destruct Hsock as [Hs|Hs]; rewrite Hs; simpl;
    match goal with
    | |- ∃ c', ChatWidget.run ?c1 trace = _ ∧ _ =>
        destruct (Hrun c1 eq_refl) as (c' & ? & ? & ? & ?); by exists c'
    end.
Qed.

(** X14: what the widget hands to its socket is accepted by the gateway.
    A click that hands over a text hands over the JSON text of
    [{ type: 'chat', query }] with the typed, non-empty question; the
    gateway, given the message that parses to this object, makes a call to
    the chat service with that question. *)
Theorem question_reaches_the_service c c' s w :
  send c = Normal c' →
  transmitted c' ≠ transmitted c →
  is_Some (sockets s !! w) →
  input c ≠ "" ∧
  transmitted c' = (transmitted c ++ [JSON_stringify (question (input c))])%list ∧
  Gateway.step s (Gateway.Message w (JSONText (question (input c)))) =
    Normal (axios_post w Query
              {| url := "http://localhost:8002/query";
                 body := [("query", Some (JStr (input c)))];
                 timeout := 30000 |} s).
Proof.
  unfold send. intros Hsend Hne [sock Hw].
  destruct (String.eqb_spec (input c) "") as [?|Hin]; simpl in Hsend.
  { injection Hsend as <-. done. }
  destruct (waiting c); simpl in Hsend.
  { injection Hsend as <-. done. }
  destruct (socket c); try done; injection Hsend as <-; simpl in *; try done.
  split_and!; [done|done|]. by rewrite Hw.
Qed.

(** X15: what the widget makes of the answers of the gateway.  Given the
    message that parses to the gateway's answer to a [chat], the widget
    shows the [answer] field of the body if the body is an object with a
    truthy one, ["Error: "] and the message for a failure with a non-empty
    message, and ["No response"] in every other case; an answer to a
    [frame] changes nothing. *)
Theorem gateway_answer_is_shown c o :
  onmessage (JSONText match o with
                      | Resolved data => success Query data
                      | Rejected m => failure Query m
                      end) c =
    Normal {| messages := show (shown_for o) (messages c); input := input c;
              waiting := false; socket := socket c;
              transmitted := transmitted c |} ∧
  onmessage (JSONText match o with
                      | Resolved data => success Recognize data
                      | Rejected m => failure Recognize m
                      end) c = Normal c.
Proof.
  split; [|by destruct o].
  destruct o as [data|m].
  - apply onmessage_answer; [done|]. unfold answer_of. simpl.
    destruct data as [|b|n|t|items|fields]; simpl; try done.
    destruct (own_property fields "answer") as [a|]; simpl; [|done].
    by destruct (truthy a).
  - apply onmessage_answer; [done|]. unfold answer_of. simpl.
    by destruct (String.eqb m "").
Qed.

End Chat.

(** ** The live recognition tab *)

Section Live.

Import LiveTab.

Local Open Scope nat_scope.

Implicit Types (t : tab) (ts : string) (e : LiveTab.event)
  (trace : list LiveTab.event).

Lemma addLog_length ts m t : length (logs (addLog ts m t)) ≤ 20.
Proof. simpl. rewrite length_take. lia. Qed.

Lemma step_logs t e : length (logs t) ≤ 20 → length (logs (LiveTab.step t e)) ≤ 20.
Proof.
  intros Ht. destruct e as [ts|ts data|ts m|ts|ts element capture|ts];
    cbn [LiveTab.step].
  - apply addLog_length.
  - unfold onmessage. destruct (onmessage_try ts data t) as [t'|m] eqn:Hm;
      [|apply addLog_length].
    unfold onmessage_try in Hm. destruct (parse data) as [d|?]; simpl in Hm; [|done].
    destruct (get d "type") as [ty|?]; simpl in Hm; [|done].
    destruct (strict_eq_string ty "recognition").
    + destruct (get d "payload"); simpl in Hm; [|done].
      injection Hm as <-. apply addLog_length.
    + destruct (get d "error") as [[err|]|]; simpl in Hm; try done.
      * destruct (truthy err); [|by injection Hm as <-].
        destruct (to_string err); simpl in Hm; [|done].
        injection Hm as <-. apply addLog_length.
      * by injection Hm as <-.
  - apply addLog_length.
  - apply addLog_length.
  - unfold tick. destruct element as [v|]; [|done].
    destruct (_ || _); [apply addLog_length|].
    destruct capture as [url|m]; [|apply addLog_length].
    destruct (_ =? _)%N; [done|apply addLog_length].
  - apply addLog_length.
Qed.

(** X16: the log of the tab never holds more than twenty lines, whatever
    happens and however often; each new line is put first and the oldest
    lines beyond twenty are dropped. *)
Theorem log_is_bounded trace ts m :
  length (logs (LiveTab.run LiveTab.initial trace)) ≤ 20 ∧
  logs (addLog ts m (LiveTab.run LiveTab.initial trace)) =
    ("[" ++ ts ++ "] " ++ m)%string ::
    take 19 (logs (LiveTab.run LiveTab.initial trace)).
Proof.
  split; [|done]. unfold LiveTab.run.
  assert (H : ∀ t, length (logs t) ≤ 20 → length (logs (foldl LiveTab.step t trace)) ≤ 20).
  { induction trace as [|e trace IH]; intros t Ht; simpl; [done|].
    apply IH. by apply step_logs. }
  apply H. simpl. lia.
Qed.

(** X17: the tab never shows why a recognition failed.  Given the message
    that parses to the gateway's failure answer to a [frame], it logs
    ["Recognition: undefined"] and not the error, because the test of
    [type] comes before the test of [error]; for a success it logs the
    JSON text of the body. *)
Theorem recognition_failure_is_logged_as_undefined ts t o :
  onmessage ts (Text match o with
                     | Resolved data => success Recognize data
                     | Rejected m => failure Recognize m
                     end) t =
    addLog ts match o with
              | Resolved data => ("Recognition: " ++ JSON_stringify data)%string
              | Rejected _ => "Recognition: undefined"
              end t.
Proof. by destruct o. Qed.

(** X18: the interval callback hands the socket at most one text, and does
    so exactly when there is a video element with a non-zero width and
    height, the capture succeeded and the socket is open.  The text is the
    JSON text of [{ type: 'frame', image }] with the captured data URL, and
    the gateway, given the message that parses to this object, makes a call
    to the recognition service with that image. *)
Theorem frame_is_sent_when_ready ts element capture t s w :
  is_Some (sockets s !! w) →
  (transmitted (tick ts element capture t) ≠ transmitted t ↔
   ∃ v data_url,
     element = Some v ∧
     or_number (videoWidth v) (clientWidth v) ≠ 0%N ∧
     or_number (videoHeight v) (clientHeight v) ≠ 0%N ∧
     capture = Normal data_url ∧
     LiveTab.socket t = OPEN) ∧
  (∀ data_url,
     transmitted (tick ts element capture t) ≠ transmitted t →
     capture = Normal data_url →
     tick ts element capture t =
       {| logs := logs t; isRunning := isRunning t; wsStatus := wsStatus t;
          LiveTab.socket := OPEN;
          transmitted := transmitted t ++ [JSON_stringify (frame data_url)] |} ∧
     Gateway.step s (Gateway.Message w (JSONText (frame data_url))) =
       Normal (axios_post w Recognize
                 {| url := "http://localhost:8001/recognize";
                    body := [("image", Some (JStr data_url))];
                    timeout := 10000 |} s)).
Proof.
  intros [sock Hw].
  assert (Hgrow : ∀ (l : list string) x, (l ++ [x])%list ≠ l).
  { intros l x H. apply (f_equal length) in H. rewrite length_app in H. simpl in H. lia. }
  unfold tick. destruct element as [v|].
  2:{ split; [split; [done|by intros (? & ? & ? & _)]|done]. }
  destruct (N.eqb_spec (or_number (videoWidth v) (clientWidth v)) 0) as [Hw0|Hw0]; simpl.
  { split; [split; [done|]|done]. intros (? & ? & [= <-] & ? & _). done. }
  destruct (N.eqb_spec (or_number (videoHeight v) (clientHeight v)) 0) as [Hh0|Hh0]; simpl.
  { split; [split; [done|]|done]. intros (? & ? & [= <-] & _ & ? & _). done. }
  destruct capture as [url|m]; simpl.
  2:{ split; [split; [done|by intros (? & ? & _ & _ & _ & ? & _)]|done]. }
  destruct (LiveTab.socket t) eqn:Hsock; simpl;
    try (split; [split; [done|by intros (? & ? & _ & _ & _ & _ & ?)]|done]).
  split.
  - split; [|by intros _; apply Hgrow]. intros _. by exists v, url.
  - intros data_url _ [= <-]. split; [done|]. simpl. by rewrite Hw.
Qed.

End Live.

(** ** The proxy routes and the registration tab *)

Section Proxy.

(** X10: what the registration tab shows as last registered after it
    fetched through the proxy.  When the upstream call failed, the tab
    takes the error body of the proxy for the record and shows ["none"];
    when it resolved, the tab shows what it would show for the upstream
    body itself, and its rendering throws if that body is [null]. *)
Theorem last_registered_through_proxy o recent :
  RegistrationTab.last_registered
    (RegistrationTab.fetchRecent (Normal (Rest.content (Rest.reply o))) recent) =
    match o with
    | Rejected _ => Normal "none"
    | Resolved JNull => Throw "Cannot read properties of null (reading 'name')"
    | Resolved data => RegistrationTab.last_registered data
    end.
Proof. destruct o as [[]|m]; done. Qed.

End Proxy.

(** ** The theorems on examples *)

Example two_clients_pending_reached :
  run initial (two_clients ++ [Message 0 frame_A; Message 1 frame_B])
  = Normal two_clients_pending.
Proof. reflexivity. Qed.

Lemma registry_holds_no_closed_socket_witness :
  run initial (two_clients ++ [Message 0 frame_A; Message 1 frame_B])
    = Normal two_clients_pending ∧
  clients two_clients_pending !! "17000000002509x1c3kq07b" = Some 1 ∧
  ∃ sock, sockets two_clients_pending !! 1 = Some sock ∧
          id sock = "17000000002509x1c3kq07b" ∧ readyState sock ≠ CLOSED.
Proof.
  split_and!; [reflexivity|reflexivity|].
  exact (registry_holds_no_closed_socket
           (two_clients ++ [Message 0 frame_A; Message 1 frame_B])
           two_clients_pending "17000000002509x1c3kq07b" 1 eq_refl eq_refl).
Defined.

Lemma live_socket_is_registered_witness :
  run initial (two_clients ++ [Message 0 frame_A; Message 1 frame_B])
    = Normal two_clients_pending ∧
  clients two_clients_pending !! "17000000000004fzyo82mvyr" = Some 0.
Proof.
  split; [reflexivity|].
  apply (live_socket_is_registered
           (two_clients ++ [Message 0 frame_A; Message 1 frame_B])
           two_clients_pending 0
           {| id := "17000000000004fzyo82mvyr"; readyState := OPEN; sent := [] |}
           eq_refl eq_refl).
  - discriminate.
  - intros [|[|w']] sock'; simpl; [done| |done].
    intros [= <-]. discriminate.
Defined.

Lemma other_sockets_untouched_witness :
  ∃ s', step two_clients_pending (Settle 1 (Resolved bob)) = Normal s' ∧
        outbox s' 1 = [wire "{'type':'recognition','payload':{'matches':[{'name':'Bob'}]}}"] ∧
        sockets s' !! 0 =
          Some {| id := "17000000000004fzyo82mvyr"; readyState := OPEN; sent := [] |}.
Proof.
  eexists. split; [reflexivity|]. split; [reflexivity|].
  apply (other_sockets_untouched two_clients_pending (Settle 1 (Resolved bob)) _ 0 _
           eq_refl eq_refl).
  discriminate.
Defined.

Lemma request_is_answered_on_its_socket_witness :
  is_open 0 (sockets two_clients_pending) = true ∧
  ∃ s', run two_clients_pending [Message 0 frame_B; Settle 2 (Resolved bob)] = Normal s' ∧
        outbox s' 0 = [wire "{'type':'recognition','payload':{'matches':[{'name':'Bob'}]}}"] ∧
        (∀ w', w' ≠ 0 → outbox s' w' = outbox two_clients_pending w') ∧
        in_flight s' 0 Recognize = in_flight two_clients_pending 0 Recognize.
Proof.
  split; [reflexivity|].
  apply (request_is_answered_on_its_socket two_clients_pending 0 Recognize
           [("type", JStr "frame"); ("image", JStr "data:image/jpeg;base64,BBB")]
           frame_B (Resolved bob) eq_refl).
  split_and!; [reflexivity|reflexivity|intros [=]].
Defined.

Lemma one_answer_per_settled_call_witness :
  ∃ s sock,
    run initial (one_client ++ [Message 0 frame_A; Message 0 frame_B;
                                Settle 1 (Resolved bob)]) = Normal s ∧
    sockets s !! 0 = Some sock ∧ readyState sock = OPEN ∧
    length (outbox s 0) = 1 ∧ length (settled_calls s 0) = 1 ∧
    length (calls s) = 2.
Proof.
  eexists. eexists. split; [reflexivity|]. split; [reflexivity|].
  split; [reflexivity|].
  pose proof (one_answer_per_settled_call
                (one_client ++ [Message 0 frame_A; Message 0 frame_B;
                                Settle 1 (Resolved bob)]) _ 0 _ eq_refl eq_refl) as [_ H].
  split; [|split; [|reflexivity]].
  - rewrite (H eq_refl). reflexivity.
  - reflexivity.
Defined.

Lemma unprintable_query_is_dropped_witness :
  is_Some (sockets one_client_connected !! 0) ∧
  to_string_throws unprintable = true ∧
  step one_client_connected (Message 0 (JSONText (JObj unprintable_chat)))
    = Normal one_client_connected ∧
  step one_client_connected
       (Message 0 (JSONText (JObj [("type", JStr "frame"); ("image", unprintable)]))) =
    Normal (axios_post 0 Recognize
              {| url := "http://localhost:8001/recognize";
                 body := [("image", Some unprintable)];
                 timeout := 10000 |} one_client_connected).
Proof.
  assert (H : is_Some (sockets one_client_connected !! 0)) by (simpl; eauto).
  split_and!; [exact H|reflexivity|..].
  - exact (proj1 (unprintable_query_is_dropped one_client_connected 0 unprintable_chat
                    unprintable H eq_refl) eq_refl eq_refl).
  - exact (proj2 (unprintable_query_is_dropped one_client_connected 0
                    [("type", JStr "frame"); ("image", unprintable)]
                    unprintable H eq_refl) eq_refl eq_refl).
Defined.

Lemma answer_replaces_placeholder_witness :
  ∃ c,
    ChatWidget.run ChatWidget.initial ask = Normal c ∧
    ChatWidget.waiting c = true ∧
    ∃ before,
      ChatWidget.messages c = (before ++ [ChatWidget.placeholder])%list ∧
      ChatWidget.onmessage (JSONText alice_answer) c =
        Normal {| ChatWidget.messages :=
                    before ++ [{| ChatWidget.from := "bot";
                                  ChatWidget.text := JStr "Alice registered last." |}];
                  ChatWidget.input := ChatWidget.input c;
                  ChatWidget.waiting := false;
                  ChatWidget.socket := ChatWidget.socket c;
                  ChatWidget.transmitted := ChatWidget.transmitted c |}.
Proof.
  eexists. split; [reflexivity|]. split; [reflexivity|].
  exact (answer_replaces_placeholder ask _ alice_answer (JStr "Alice registered last.")
           eq_refl eq_refl eq_refl eq_refl).
Defined.

Lemma exchange_adds_two_bubbles_witness :
  ChatWidget.run asking [ChatWidget.Clicked; ChatWidget.Received (JSONText alice_answer)] =
    Normal {| ChatWidget.messages :=
                [{| ChatWidget.from := "user";
                    ChatWidget.text := JStr "Who registered last?" |};
                 {| ChatWidget.from := "bot";
                    ChatWidget.text := JStr "Alice registered last." |}];
              ChatWidget.input := ""; ChatWidget.waiting := false;
              ChatWidget.socket := OPEN;
              ChatWidget.transmitted :=
                [wire "{'type':'chat','query':'Who registered last?'}"] |}.
Proof.
  apply (exchange_adds_two_bubbles asking alice_answer (JStr "Alice registered last.")
           eq_refl); [discriminate|reflexivity|reflexivity|reflexivity].
Defined.

Lemma question_on_closed_socket_is_lost_witness :
  ∃ c',
    ChatWidget.run asking_offline
      [ChatWidget.Clicked; ChatWidget.Typed "Hello?"; ChatWidget.Clicked] = Normal c' ∧
    ChatWidget.waiting c' = true ∧
    ChatWidget.messages c' =
      [{| ChatWidget.from := "user"; ChatWidget.text := JStr "Who registered last?" |};
       ChatWidget.placeholder] ∧
    ChatWidget.transmitted c' = [].
Proof.
  apply (question_on_closed_socket_is_lost asking_offline
           [ChatWidget.Typed "Hello?"; ChatWidget.Clicked] eq_refl).
  - discriminate.
  - by right.
  - repeat constructor.
Defined.

Lemma question_reaches_the_service_witness :
  ∃ c',
    ChatWidget.send asking = Normal c' ∧
    ChatWidget.transmitted c' = [wire "{'type':'chat','query':'Who registered last?'}"] ∧
    step one_client_connected
         (Message 0 (JSONText (ChatWidget.question "Who registered last?"))) =
      Normal one_chat_pending.
Proof.
  eexists. split; [reflexivity|].
  destruct (question_reaches_the_service asking _ one_client_connected 0 eq_refl)
    as (_ & Ht & Hs).
  - discriminate.
  - simpl. eauto.
  - split; [exact Ht|exact Hs].
Defined.

Lemma frame_is_sent_when_ready_witness :
  is_Some (sockets one_client_connected !! 0) ∧
  LiveTab.transmitted
    (LiveTab.tick "10:15:00" (Some playing) (Normal "data:image/jpeg;base64,AAA") watching)
    = [wire "{'type':'frame','image':'data:image/jpeg;base64,AAA'}"] ∧
  step one_client_connected
       (Message 0 (JSONText (LiveTab.frame "data:image/jpeg;base64,AAA"))) =
    Normal one_frame_pending.
Proof.
  assert (H : is_Some (sockets one_client_connected !! 0)) by (simpl; eauto).
  split; [exact H|].
  destruct (proj2 (frame_is_sent_when_ready "10:15:00" (Some playing)
                     (Normal "data:image/jpeg;base64,AAA") watching
                     one_client_connected 0 H)
              "data:image/jpeg;base64,AAA") as [Ht Hs].
  - discriminate.
  - reflexivity.
  - split; [by rewrite Ht|exact Hs].
Defined.

(** The label of a fresh registration tab, and of one that fetched a
    record. *)
Example last_registered_examples :
  RegistrationTab.last_registered RegistrationTab.initial_recent = Normal "none" ∧
  RegistrationTab.last_registered (JObj [("id", JNum "7"); ("name", JStr "Alice")])
    = Normal "Alice".
Proof. split; reflexivity. Qed.

(** A log line and a joined array. *)
Example to_string_examples :
  to_string (JArr [JNum "1"; JNull; JArr [JStr "a"; JBool true]; JObj []])
    = Normal "1,,a,true,[object Object]" ∧
  to_string (JArr [JNum "1"; unprintable])
    = Throw "Cannot convert object to primitive value".
Proof. split; reflexivity. Qed.

(** ** What is written is read back *)

Section RoundTrip.

Import Wire.

Lemma json_ind' (P : json → Prop) :
  P JNull → (∀ b, P (JBool b)) → (∀ t, P (JNum t)) → (∀ s, P (JStr s)) →
  (∀ items, Forall P items → P (JArr items)) →
  (∀ fields, Forall (λ kv, P kv.2) fields → P (JObj fields)) →
  ∀ v, P v.
Proof.
  intros Hnull Hbool Hnum Hstr Harr Hobj.
  fix IH 1. intros [|b|t|s|items|fields]; [done|done|done|done| |].
  - apply Harr.
    exact ((fix all (l : list json) : Forall P l :=
              match l with
              | [] => Forall_nil_2 P
              | x :: l' => Forall_cons_2 P x l' (IH x) (all l')
              end) items).
  - apply Hobj.
    exact ((fix all (l : list (string * json)) : Forall (λ kv, P kv.2) l :=
              match l with
              | [] => Forall_nil_2 _
              | (k, x) :: l' => Forall_cons_2 (λ kv, P kv.2) (k, x) l' (IH x) (all l')
              end) fields).
Qed.

Lemma append_cons (c : ascii) (s t : string) : String c s ++ t = String c (s ++ t).
Proof. reflexivity. Qed.

Lemma append_nil (t : string) : "" ++ t = t.
Proof. reflexivity. Qed.

Lemma length_append (s t : string) :
  String.length (s ++ t) = String.length s + String.length t.
Proof.
  induction s as [|c s IH]; [done|].
  rewrite append_cons. simpl. by rewrite IH.
Qed.

(** *** Strings *)

Lemma read_chars_quote (s rest : string) :
  read_chars (quote_chars s ++ String (ascii_of_N 34) rest) = Read (s, rest).
Proof.
  induction s as [|c s IH]; [done|].
  change (quote_chars (String c s)) with (quote_char c ++ quote_chars s).
  rewrite append_assoc.
  set (tail := quote_chars s ++ String (ascii_of_N 34) rest) in *.
  destruct c as [[] [] [] [] [] [] [] []];
    match goal with
    | |- context [quote_char ?c] =>
        let q := eval vm_compute in (quote_char c) in change (quote_char c) with q
    end;
    rewrite ?append_cons, ?append_nil; simpl; rewrite IH; reflexivity.
Qed.


(** *** Numbers *)

Lemma span_app (p : ascii → bool) (t rest : string) :
  forallb p (list_ascii_of_string t) = true →
  match rest with String c _ => p c = false | EmptyString => True end →
  span p (t ++ rest) = (t, rest).
Proof.
  intros Ht Hrest. induction t as [|c t IH].
  - rewrite append_nil. destruct rest as [|c rest]; [done|]. simpl. by rewrite Hrest.
  - simpl in Ht. apply andb_true_iff in Ht as [Hc Ht].
    rewrite append_cons. simpl. rewrite Hc, (IH Ht). done.
Qed.

Lemma canonical_number_text t : canonical_number t = true → number_text t = t.
Proof.
  intros Ht. unfold number_text.
  destruct (String.eqb_spec t "NaN") as [->|_]; [done|].
  destruct (String.eqb_spec t "Infinity") as [->|_]; [done|].
  destruct (String.eqb_spec t "-Infinity") as [->|_]; [done|].
  done.
Qed.

Lemma canonical_number_read t fuel rest :
  canonical_number t = true → boundary rest →
  read_value (S fuel) (t ++ rest) = Read (JNum t, rest).
Proof.
  intros Ht Hrest. destruct t as [|c t]; [done|].
  unfold canonical_number in Ht.
  apply andb_true_iff in Ht as [Ht Hjs]. apply andb_true_iff in Ht as [Hc Hall].
  destruct (js_number (String c t)) as [t'| |] eqn:Hn; try done.
  apply String.eqb_eq in Hjs. subst t'.
  rewrite append_cons.
  assert (Hspan : span number_char (String c (t ++ rest)) = (String c t, rest)).
  { rewrite <- append_cons. by apply span_app. }
  cbn [read_value].
  assert (Hsp : skip_ws (String c (t ++ rest)) = String c (t ++ rest)).
  { simpl. destruct c as [[] [] [] [] [] [] [] []]; try done. }
  rewrite Hsp.
  assert (Hd : (code c =? 123)%N = false ∧ (code c =? 91)%N = false ∧
               (code c =? 34)%N = false ∧ (code c =? 116)%N = false ∧
               (code c =? 102)%N = false ∧ (code c =? 110)%N = false).
  { destruct c as [[] [] [] [] [] [] [] []]; try done. }
  destruct Hd as (-> & -> & -> & -> & -> & ->).
  rewrite Hc, Hspan. simpl. rewrite Hn. done.
Qed.

(** *** Objects *)

Lemma insert_index_append i k v seen :
  forallb (fun kv => match array_index kv.1 with
                     | Some j => (j <? i)%N
                     | None => false
                     end) seen = true →
  insert_index i k v seen = (seen ++ [(k, v)])%list.
Proof.
  induction seen as [|[k' v'] seen IH]; [done|]. simpl.
  intros [Hk Hs]%andb_true_iff.
  destruct (array_index k') as [j|]; [|done]. rewrite Hk, (IH Hs). done.
Qed.

Lemma define_appendable k v seen :
  appendable k seen = true → define seen (k, v) = (seen ++ [(k, v)])%list.
Proof.
  unfold appendable, define. intros [Hnew Hord]%andb_true_iff.
  apply negb_true_iff in Hnew. rewrite Hnew.
  destruct (array_index k); [by apply insert_index_append|done].
Qed.

Lemma foldl_define_ordered fields seen :
  ordered seen fields = true → foldl define seen fields = (seen ++ fields)%list.
Proof.
  revert seen. induction fields as [|[k v] fields IH]; intros seen;
    cbn [foldl ordered].
  - by rewrite app_nil_r.
  - intros [Hk Hrest]%andb_true_iff. rewrite (define_appendable k v seen Hk).
    rewrite (IH _ Hrest), <- app_assoc. done.
Qed.


(** *** Values *)

Lemma stringify_array items :
  JSON_stringify (JArr items) = "[" ++ join_elements items ++ "]".
Proof. reflexivity. Qed.

Lemma stringify_object fields :
  JSON_stringify (JObj fields) = "{" ++ join_members fields ++ "}".
Proof. reflexivity. Qed.

Lemma stringify_head v :
  well_formed v = true → ∃ c s, JSON_stringify v = String c s ∧ opens c.
Proof.
  destruct v as [|[]|t|s|items|fields]; intros Hv.
  - by exists "n"%char, "ull".
  - by exists "t"%char, "rue".
  - by exists "f"%char, "alse".
  - simpl in Hv. change (JSON_stringify (JNum t)) with (number_text t).
    rewrite (canonical_number_text t Hv).
    destruct t as [|c t]; [done|]. exists c, t. split; [done|].
    unfold canonical_number in Hv.
    apply andb_true_iff in Hv as [Hv _]. apply andb_true_iff in Hv as [Hc _].
    destruct c as [[] [] [] [] [] [] [] []]; try done.
  - exists (ascii_of_N 34), (quote_chars s ++ dquote). done.
  - exists "["%char, (join_elements items ++ "]"). done.
  - exists "{"%char, (join_members fields ++ "}"). done.
Qed.

Lemma skip_ws_opens c s : opens c → skip_ws (String c s) = String c s.
Proof. intros (H & _). simpl. by rewrite H. Qed.

Lemma read_value_array fuel c s :
  opens c →
  read_value (S fuel) (String "[" (String c s)) =
    '(items, after) ← read_elements fuel (String c s); Read (JArr items, after).
Proof.
  intros Hc. pose proof Hc as (_ & H93 & _). cbn [read_value skip_ws].
  change (is_space "[") with false. cbv iota.
  change (code "[" =? 123)%N with false. change (code "[" =? 91)%N with true. cbv iota.
  rewrite (skip_ws_opens c s Hc), H93. done.
Qed.

Lemma read_value_object fuel c s :
  opens c →
  read_value (S fuel) (String "{" (String c s)) =
    '(members, after) ← read_members fuel (String c s); Read (build members, after).
Proof.
  intros Hc. pose proof Hc as (_ & _ & H125). cbn [read_value skip_ws].
  change (is_space "{") with false. cbv iota.
  change (code "{" =? 123)%N with true. cbv iota.
  rewrite (skip_ws_opens c s Hc), H125. done.
Qed.

Lemma read_elements_join items :
  Forall reads items → forallb well_formed items = true → items ≠ [] →
  ∀ fuel rest, String.length (join_elements items) + 1 < fuel →
    read_elements fuel (join_elements items ++ String "]" rest) = Read (items, rest).
Proof.
  induction items as [|x items IH]; [done|].
  intros [Hx Hitems]%Forall_cons [Hwx Hwitems]%andb_true_iff _ fuel rest Hfuel.
  destruct fuel as [|fuel]; [lia|].
  destruct items as [|y items].
  - change (join_elements [x]) with (JSON_stringify x ++ "") in *.
    rewrite append_empty in *. cbn [read_elements].
    rewrite (Hx Hwx fuel (String "]" rest)); [|lia|done].
    cbn [skip_ws mbind reading_bind].
    change (is_space "]") with false. change (code "]" =? 44)%N with false.
    change (code "]" =? 93)%N with true. done.
  - change (join_elements (x :: y :: items))
      with (JSON_stringify x ++ "," ++ join_elements (y :: items)) in *.
    rewrite !length_append in Hfuel. change (String.length ",") with 1 in Hfuel.
    rewrite !append_assoc. cbn [read_elements].
    rewrite (Hx Hwx fuel); [|lia|done].
    change ("," ++ ?t) with (String "," t). cbn [skip_ws mbind reading_bind].
    change (is_space ",") with false. change (code "," =? 44)%N with true. cbv iota.
    rewrite (IH Hitems Hwitems); [done|done|]. lia.
Qed.

Lemma read_members_join fields :
  Forall (λ kv, reads kv.2) fields →
  forallb (fun kv => well_formed kv.2) fields = true → fields ≠ [] →
  ∀ fuel rest, String.length (join_members fields) + 1 < fuel →
    read_members fuel (join_members fields ++ String "}" rest) = Read (fields, rest).
Proof.
  induction fields as [|[k x] fields IH]; [done|].
  intros [Hx Hfields]%Forall_cons [Hwx Hwfields]%andb_true_iff _ fuel rest Hfuel.
  simpl in Hx, Hwx.
  destruct fuel as [|fuel]; [lia|].
  destruct fields as [|[k' y] fields].
  - change (join_members [(k, x)]) with (quote k ++ ":" ++ JSON_stringify x ++ "") in *.
    rewrite append_empty in *. rewrite !length_append in Hfuel.
    unfold quote in *. rewrite !append_assoc.
    change (dquote ++ ?t) with (String (ascii_of_N 34) t).
    cbn [read_members]. rewrite skip_ws_opens by done.
    change (code (ascii_of_N 34) =? 34)%N with true. cbv iota.
    change (dquote ++ ?t) with (String (ascii_of_N 34) t).
    rewrite read_chars_quote.
    change (":" ++ ?t) with (String ":" t). cbn [skip_ws mbind reading_bind].
    change (is_space ":") with false. change (code ":" =? 58)%N with true. cbv iota.
    rewrite (Hx Hwx fuel (String "}" rest)); [|lia|done].
    cbn [skip_ws mbind reading_bind].
    change (is_space "}") with false. change (code "}" =? 44)%N with false.
    change (code "}" =? 125)%N with true. done.
  - change (join_members ((k, x) :: (k', y) :: fields))
      with (quote k ++ ":" ++ JSON_stringify x ++ "," ++ join_members ((k', y) :: fields)) in *.
    rewrite !length_append in Hfuel. change (String.length ",") with 1 in Hfuel.
    unfold quote in *. rewrite !append_assoc.
    change (dquote ++ ?t) with (String (ascii_of_N 34) t).
    cbn [read_members]. rewrite skip_ws_opens by done.
    change (code (ascii_of_N 34) =? 34)%N with true. cbv iota.
    change (dquote ++ ?t) with (String (ascii_of_N 34) t).
    rewrite read_chars_quote.
    change (":" ++ ?t) with (String ":" t). cbn [skip_ws mbind reading_bind].
    change (is_space ":") with false. change (code ":" =? 58)%N with true. cbv iota.
    rewrite (Hx Hwx fuel); [|lia|done].
    change ("," ++ ?t) with (String "," t). cbn [skip_ws mbind reading_bind].
    change (is_space ",") with false. change (code "," =? 44)%N with true. cbv iota.
    rewrite (IH Hfields Hwfields); [done|done|]. lia.
Qed.

Lemma read_value_stringify v : reads v.
Proof.
  induction v as [|b|t|s|items Hitems|fields Hfields] using json_ind';
    intros Hv fuel rest Hfuel Hrest; (destruct fuel as [|fuel]; [lia|]).
  - reflexivity.
  - by destruct b.
  - change (JSON_stringify (JNum t)) with (number_text t).
    rewrite (canonical_number_text t Hv). by apply canonical_number_read.
  - change (JSON_stringify (JStr s)) with (dquote ++ quote_chars s ++ dquote).
    rewrite !append_assoc.
    change (dquote ++ quote_chars s ++ dquote ++ rest)
      with (String (ascii_of_N 34) (quote_chars s ++ String (ascii_of_N 34) rest)).
    change (read_value (S fuel) (String (ascii_of_N 34) ?t))
      with ('(str, after) ← read_chars t; Read (JStr str, after)).
    rewrite read_chars_quote. done.
  - simpl in Hv. rewrite stringify_array in *. rewrite !append_assoc.
    change ("[" ++ ?t) with (String "[" t). change ("]" ++ ?t) with (String "]" t).
    destruct items as [|x items]; [reflexivity|].
    destruct (stringify_head x) as (c & sx & Hsx & Hc).
    { by apply andb_true_iff in Hv as [? _]. }
    assert (Hjoin : ∃ tail, join_elements (x :: items) = String c tail).
    { destruct items; eexists;
        [change (join_elements [x]) with (JSON_stringify x ++ "")
        |change (join_elements (x :: j :: items))
           with (JSON_stringify x ++ "," ++ join_elements (j :: items))];
        rewrite Hsx; apply append_cons. }
    destruct Hjoin as [tail Htail].
    assert (Hlen : String.length (join_elements (x :: items)) + 1 < fuel).
    { rewrite !length_append in Hfuel.
      change (String.length "[") with 1 in Hfuel.
      change (String.length "]") with 1 in Hfuel. lia. }
    pose proof (read_elements_join (x :: items) Hitems Hv ltac:(done) fuel rest Hlen)
      as Hread.
    rewrite Htail in *. rewrite append_cons in *.
    rewrite (read_value_array fuel c _ Hc), Hread. done.
  - simpl in Hv. apply andb_true_iff in Hv as [Hord Hv].
    rewrite stringify_object in *. rewrite !append_assoc.
    change ("{" ++ ?t) with (String "{" t). change ("}" ++ ?t) with (String "}" t).
    destruct fields as [|[k x] fields]; [reflexivity|].
    assert (Hjoin : ∃ tail, join_members ((k, x) :: fields) = String (ascii_of_N 34) tail).
    { destruct fields as [|[k' y] fields]; eexists; reflexivity. }
    destruct Hjoin as [tail Htail].
    assert (Hlen : String.length (join_members ((k, x) :: fields)) + 1 < fuel).
    { rewrite !length_append in Hfuel.
      change (String.length "{") with 1 in Hfuel.
      change (String.length "}") with 1 in Hfuel. lia. }
    pose proof (read_members_join ((k, x) :: fields) Hfields Hv ltac:(done) fuel rest Hlen)
      as Hread.
    rewrite Htail in *. rewrite append_cons in *.
    rewrite (read_value_object fuel (ascii_of_N 34) _ ltac:(done)), Hread.
    cbn [mbind reading_bind]. unfold build.
    rewrite (foldl_define_ordered _ [] Hord). done.
Qed.

(** Reading what [JSON.stringify] wrote gives the value back. *)
Lemma parse_stringify v :
  well_formed v = true → JSON_parse_text (JSON_stringify v) = Read v.
Proof.
  intros Hv. unfold JSON_parse_text.
  rewrite <- (append_empty (JSON_stringify v)) at 2.
  rewrite (read_value_stringify v Hv); [done|lia|done].
Qed.

End RoundTrip.

(** ** The body of a response and the payload that is sent *)

Section Body.

Import Wire.

Implicit Types (s : state) (c : nat) (k : call) (body : string) (data : json).

Lemma axios_data_cases body data :
  axios_data body = Some data →
  JSON_parse_text (strip_bom body) = Read data ∨
  (JSON_parse_text (strip_bom body) = Malformed ∧ data = JStr (strip_bom body)).
Proof.
  unfold axios_data. destruct (JSON_parse_text (strip_bom body)); intros [= <-]; auto.
Qed.

Lemma answer_well_formed svc data :
  well_formed data = true → well_formed (success svc data) = true.
Proof. intros H. destruct svc; simpl; by rewrite H. Qed.


End Body.



(** Texts that [JSON.parse] takes, refuses, or that the model leaves
    alone. *)
Example parse_examples :
  Wire.JSON_parse_text (wire " [1e3, -0.50, true, null, 'aA\n'] ") =
    Wire.Read (JArr [JNum "1000"; JNum "-0.5"; JBool true; JNull;
                     JStr (String "a" (String "A" (String (ascii_of_N 10) "")))]) ∧
  Wire.JSON_parse_text (wire "{'a':1,'a':2,'2':0,'1':0}") =
    Wire.Read (JObj [("1", JNum "0"); ("2", JNum "0"); ("a", JNum "2")]) ∧
  Wire.JSON_parse_text "[1,]" = Wire.Malformed ∧
  Wire.JSON_parse_text "01" = Wire.Malformed ∧
  Wire.JSON_parse_text (wire "{'id': 12345678901234567890}") = Wire.Beyond.
Proof. split_and!; reflexivity. Qed.

(** ** A question asked before the socket has opened *)

Section Early.

Import ChatWidget.

Implicit Types (c : widget) (e : ChatWidget.event) (trace : list ChatWidget.event).

Lemma step_silent_waiting c e :
  waiting c = true → silent e →
  ∃ c', ChatWidget.step c e = Normal c' ∧ waiting c' = true ∧
        messages c' = messages c ∧ transmitted c' = transmitted c.
Proof.
  intros Hw. destruct e as [v| |data|r]; simpl; try done; intros _.
  - by eexists.
  - unfold send. rewrite Hw, orb_true_r. by exists c.
  - by eexists.
Qed.

Lemma run_silent_waiting trace c :
  waiting c = true → Forall silent trace →
  ∃ c', ChatWidget.run c trace = Normal c' ∧ waiting c' = true ∧
        messages c' = messages c ∧ transmitted c' = transmitted c.
Proof.
  intros Hw Htrace. revert c Hw.
  induction Htrace as [|e trace He _ IH]; intros c Hw; simpl.
  - by exists c.
  - destruct (step_silent_waiting c e Hw He) as (c1 & -> & H1 & Hm & Ht).
    simpl. destruct (IH c1 H1) as (c' & ? & ? & ? & ?).
    exists c'. split_and!; [done|done|congruence|congruence].
Qed.

(** X19: a question asked while the socket is still connecting is never
    sent.  The click shows the question and the placeholder and makes the
    widget wait, the typed text stays in the input, and nothing is handed
    to the socket; as long as no message arrives, whatever the user types or
    clicks and whatever becomes of the socket, its opening included, the
    widget keeps waiting, shows the same bubbles and has handed over
    nothing. *)
Theorem early_question_is_never_sent c trace :
  waiting c = false →
  input c ≠ "" →
  socket c = CONNECTING →
  Forall silent trace →
  ∃ c1 c',
    ChatWidget.step c Clicked = Normal c1 ∧
    input c1 = input c ∧
    ChatWidget.run c1 trace = Normal c' ∧
    waiting c' = true ∧
    messages c' =
      (messages c ++ [{| from := "user"; text := JStr (input c) |}; placeholder])%list ∧
    transmitted c' = transmitted c.
Proof.
  intros Hw Hin Hsock Htrace. simpl. unfold send.
  destruct (String.eqb_spec (input c) "") as [?|_]; [done|]. rewrite Hw, Hsock. simpl.
  eexists.
  match goal with
  | |- ∃ c', Normal ?c1 = _ ∧ _ =>
      destruct (run_silent_waiting trace c1 eq_refl Htrace) as (c' & ? & ? & ? & ?);
      exists c'
  end.
  split_and!; done.
Qed.

End Early.

Lemma early_question_is_never_sent_witness :
  ∃ c1 c',
    ChatWidget.step asking_early ChatWidget.Clicked = Normal c1 ∧
    ChatWidget.input c1 = "Who registered last?" ∧
    ChatWidget.run c1 [ChatWidget.Socket OPEN; ChatWidget.Clicked;
                       ChatWidget.Typed "Hello?"; ChatWidget.Clicked] = Normal c' ∧
    ChatWidget.waiting c' = true ∧
    ChatWidget.messages c' =
      [{| ChatWidget.from := "user"; ChatWidget.text := JStr "Who registered last?" |};
       ChatWidget.placeholder] ∧
    ChatWidget.transmitted c' = [].
Proof.
  apply (early_question_is_never_sent asking_early
           [ChatWidget.Socket OPEN; ChatWidget.Clicked;
            ChatWidget.Typed "Hello?"; ChatWidget.Clicked] eq_refl).
  - discriminate.
  - reflexivity.
  - repeat constructor.
Defined.

